(** * malloclab/mm.c: implicit free list allocator, first-fit placement

    A shallow embedding of [mm.c] and a verification of its behaviour.

    - [size_t] is the 64-bit unsigned integer of x86-64 (the ISA the
      repository targets); every arithmetic result is reduced with [wrap].
    - A pointer is its address, a [Z]; [NULL] is address 0.
    - Memory is byte addressed; a header is the [size_t] stored
      little-endian in the first 8 bytes of a block
      ([offsetof(block_t, payload)] = 8).
    - The two globals [heap_start] and [heap_end] and the memory-system
      break of [memlib] are threaded through the functions in a [state]. *)

From Stdlib Require Import ZArith Lia List Bool.
Import ListNotations.
Local Open Scope Z_scope.

(** ** Machine integers *)

Module Word.

Definition SIZE_BITS : Z := 64.
Definition modulus : Z := 2 ^ SIZE_BITS.
Definition SIZE_MAX : Z := modulus - 1.

(** Reduction of an arithmetic result to [size_t]. *)
Definition wrap (x : Z) : Z := x mod modulus.

(** [~0x7]: the [int] constant -8 converted to [size_t]. *)
Definition NOT_0x7 : Z := wrap (Z.lnot 7).

End Word.
Import Word.

(** ** Basic constants and macros *)

Definition WSIZE : Z := 4.
Definition DSIZE : Z := 8.
Definition OVERHEAD : Z := 8.

Definition NULL : Z := 0.

(** [#define PACK(size, alloc)  ((size) | (alloc))] *)
Definition PACK (size alloc : Z) : Z := Z.lor size alloc.

(** The size and allocated fields of a header word:
    [GET(p) & ~0x7] and [GET(p) & 0x1]. *)
Definition SIZE_OF (w : Z) : Z := Z.land w NOT_0x7.
Definition ALLOC_OF (w : Z) : Z := Z.land w 1.

(** [offsetof(block_t, payload)] *)
Definition PAYLOAD_OFFSET : Z := 8.

(** ** Byte-addressed memory *)

Definition memory : Type := Z -> Z.

(** Byte [k] of the little-endian representation of a word. *)
Definition byte_of (v k : Z) : Z := (v / 2 ^ (8 * k)) mod 256.

(** [GET(p)]: [*(size_t * )(p)]. *)
Definition load (m : memory) (p : Z) : Z :=
  m p + m (p + 1) * 2 ^ 8 + m (p + 2) * 2 ^ 16 + m (p + 3) * 2 ^ 24
  + m (p + 4) * 2 ^ 32 + m (p + 5) * 2 ^ 40 + m (p + 6) * 2 ^ 48
  + m (p + 7) * 2 ^ 56.

(** [PUT(p, val)]: [*(size_t * )(p) = (val)]. *)
Definition store (m : memory) (p v : Z) : memory :=
  fun a => if (p <=? a) && (a <? p + 8) then byte_of v (a - p) else m a.

(** [memcpy(dst, src, n)] for regions that do not overlap. *)
Definition memcpy (m : memory) (dst src n : Z) : memory :=
  fun a => if (dst <=? a) && (a <? dst + n) then m (src + (a - dst)) else m a.

(** ** Allocator state *)

Record state : Type := mkState {
  mem : memory;
  mem_brk : Z;        (* memlib: first byte past the heap obtained so far *)
  mem_max_addr : Z;   (* memlib: first byte the heap may never reach *)
  heap_start : Z;
  heap_end : Z
}.

Definition set_mem (st : state) (m : memory) : state :=
  mkState m (mem_brk st) (mem_max_addr st) (heap_start st) (heap_end st).

Definition GET (st : state) (p : Z) : Z := load (mem st) p.
Definition PUT (st : state) (p v : Z) : state := set_mem st (store (mem st) p v).

Definition GET_SIZE (st : state) (p : Z) : Z := SIZE_OF (GET st p).
Definition GET_ALLOC (st : state) (p : Z) : Z := ALLOC_OF (GET st p).

(** [HDRP(p)], [NEXT_BLKP(block)] and [GET_PLD_PTR(block)]. *)
Definition HDRP (p : Z) : Z := wrap (p - PAYLOAD_OFFSET).
Definition NEXT_BLKP (st : state) (block : Z) : Z := wrap (block + GET_SIZE st block).
Definition GET_PLD_PTR (block : Z) : Z := wrap (block + PAYLOAD_OFFSET).

(** Modelled from the spec: [mem_sbrk] of [memlib.c], which is not among the
    sources.  The growth primitive extends the heap by [incr] bytes and
    returns the base address of the added region, which starts at the
    previous end; when the region cannot grow it changes nothing and
    signals failure, which [mm.c] tests as [NULL]. *)
Definition mem_sbrk (st : state) (incr : Z) : Z * state :=
  if mem_max_addr st <? mem_brk st + incr then (NULL, st)
  else (mem_brk st,
        mkState (mem st) (mem_brk st + incr) (mem_max_addr st)
                (heap_start st) (heap_end st)).

(** ** The allocator *)

(** [mm_init]: returns -1 or 0 and the new state. *)
Definition mm_init (st : state) : Z * state :=
  let '(bp, st1) := mem_sbrk st WSIZE in
  if bp =? NULL then (-1, st1)
  else
    let st2 := PUT st1 bp 0 in
    let bp' := wrap (bp + WSIZE) in
    (0, mkState (mem st2) (mem_brk st2) (mem_max_addr st2) bp' bp').

(** The byte count [extend_heap] asks [mem_sbrk] for: [words] rounded up to
    an even number, times [WSIZE]. *)
Definition extend_size (words : Z) : Z :=
  let words := if words mod 2 =? 1 then wrap (words + 1) else words in
  wrap (words * WSIZE).

(** [extend_heap]: the block pointer (or [NULL]) and the new state. *)
Definition extend_heap (st : state) (words : Z) : Z * state :=
  let size := extend_size words in
  let '(bp, st1) := mem_sbrk st size in
  if bp =? NULL then (NULL, st1)
  else
    (bp, mkState (mem st1) (mem_brk st1) (mem_max_addr st1)
                 (heap_start st1) (wrap (heap_end st1 + size))).

Definition place (st : state) (bp asize : Z) : state :=
  let csize := GET_SIZE st bp in
  if 16 <=? wrap (csize - asize) then
    let st1 := PUT st bp (PACK asize 1) in
    let next_bp := NEXT_BLKP st1 bp in
    PUT st1 next_bp (PACK (wrap (csize - asize)) 0)
  else
    PUT st bp (PACK csize 1).

(** The loop of [find_fit], from block [bp]; [None] when the iteration
    bound [fuel] is reached before the loop ends. *)
Fixpoint find_fit_from (fuel : nat) (st : state) (asize bp : Z) : option Z :=
  match fuel with
  | O => None
  | S fuel' =>
      if bp =? heap_end st then Some NULL
      else if (GET_ALLOC st bp =? 0) && (asize <=? GET_SIZE st bp) then Some bp
      else find_fit_from fuel' st asize (NEXT_BLKP st bp)
  end.

Definition find_fit (fuel : nat) (st : state) (asize : Z) : option Z :=
  find_fit_from fuel st asize (heap_start st).

Definition coalesce (st : state) (bp : Z) : state :=
  let next_block := NEXT_BLKP st bp in
  if (next_block <? heap_end st)
       && (GET_ALLOC st bp =? 0) && (GET_ALLOC st next_block =? 0)
  then
    let size := wrap (GET_SIZE st bp + GET_SIZE st next_block) in
    let header := PACK size 0 in
    PUT st bp header
  else st.

Definition mm_free (st : state) (bp : Z) : state :=
  let blockp := HDRP bp in
  let size := GET_SIZE st blockp in
  let st1 := PUT st blockp (PACK size 0) in
  coalesce st1 blockp.

(** How a call ends: it returns a value, or the process ends in [exit]. *)
Inductive outcome (A : Type) : Type :=
| Ret (a : A) (st : state)
| Exit (code : Z) (st : state).
Arguments Ret {A} a st.
Arguments Exit {A} code st.

(** The adjusted block size computed at the head of [mm_malloc]. *)
Definition adjust_size (size : Z) : Z :=
  if size <=? DSIZE then DSIZE + OVERHEAD
  else wrap (OVERHEAD + wrap (wrap (size + (DSIZE - 1)) / DSIZE * DSIZE)).

Definition mm_malloc (fuel : nat) (st : state) (size : Z) : option (outcome Z) :=
  let asize := adjust_size size in
  match find_fit fuel st asize with
  | None => None
  | Some bp =>
      if negb (bp =? NULL) then
        Some (Ret (GET_PLD_PTR bp) (place st bp asize))
      else
        let '(bp, st1) := extend_heap st (asize / WSIZE) in
        if bp =? NULL then Some (Exit 1 st1)
        else Some (Ret (GET_PLD_PTR bp) (place st1 bp asize))
  end.

Definition mm_realloc (fuel : nat) (st : state) (ptr size : Z)
  : option (outcome Z) :=
  match mm_malloc fuel st size with
  | None => None
  | Some (Exit code st1) => Some (Exit code st1)
  | Some (Ret newp st1) =>
      if newp =? NULL then Some (Exit 1 st1)
      else
        let copySize := GET_SIZE st1 (HDRP ptr) in
        let copySize := if size <? copySize then size else copySize in
        let st2 := set_mem st1 (memcpy (mem st1) newp ptr copySize) in
        Some (Ret newp (mm_free st2 ptr))
  end.

(** ** The heap as a sequence of blocks *)

Record blk : Type := mkBlk { blk_size : Z; blk_alloc : bool }.

Definition alloc_bit (a : bool) : Z := if a then 1 else 0.

Definition total_size (l : list blk) : Z :=
  fold_right (fun b acc => blk_size b + acc) 0 l.

(** The addresses of the blocks of [l] when the first one is at [bp]. *)
Fixpoint block_addrs (bp : Z) (l : list blk) : list Z :=
  match l with
  | [] => []
  | b :: l' => bp :: block_addrs (bp + blk_size b) l'
  end.

(** The headers found in [m] from [bp] on decode to the blocks of [l], each
    at least the minimum block size, laid out without gaps up to [hend]. *)
Fixpoint tiles (m : memory) (hend bp : Z) (l : list blk) : Prop :=
  match l with
  | [] => bp = hend
  | b :: l' =>
      SIZE_OF (load m bp) = blk_size b
      /\ ALLOC_OF (load m bp) = alloc_bit (blk_alloc b)
      /\ 16 <= blk_size b
      /\ bp + blk_size b <= hend
      /\ tiles m hend (bp + blk_size b) l'
  end.

(** A well-formed heap: its blocks are [l]. *)
Definition heap_ok (st : state) (l : list blk) : Prop :=
  0 < heap_start st
  /\ heap_end st < modulus
  /\ tiles (mem st) (heap_end st) (heap_start st) l.

(** A block that [find_fit] accepts for [asize]. *)
Definition fits (asize : Z) (b : blk) : bool :=
  negb (blk_alloc b) && (asize <=? blk_size b).

(** Two neighbours in heap order are both free. *)
Fixpoint adjacent_free (l : list blk) : bool :=
  match l with
  | a :: (b :: _) as l' =>
      (negb (blk_alloc a) && negb (blk_alloc b)) || adjacent_free l'
  | _ => false
  end.

(** The blocks from a freed block [b] on, when [l2] follows it: what
    [mm_free] and its [coalesce] leave there. *)
Definition blocks_after_free (b : blk) (l2 : list blk) : list blk :=
  match l2 with
  | n :: l2' =>
      if blk_alloc n then mkBlk (blk_size b) false :: l2
      else mkBlk (blk_size b + blk_size n) false :: l2'
  | [] => [mkBlk (blk_size b) false]
  end.

(** The blocks that [place] leaves where the free block [c] was. *)
Definition blocks_after_place (asize : Z) (c : blk) : list blk :=
  if 16 <=? blk_size c - asize
  then [mkBlk asize true; mkBlk (blk_size c - asize) false]
  else [mkBlk (blk_size c) true].

(** The word at [heap_end] is what [place] reads as the block size after
    the next extension, since [extend_heap] writes no header.  Its size
    field is 0, or exceeds by 16 all that the arena can still give: either
    way [place] splits and leaves a word of the same kind at the new
    [heap_end]. *)
Definition tail_ok (st : state) : Prop :=
  GET_SIZE st (heap_end st) = 0
  \/ mem_max_addr st - heap_end st + 16 <= GET_SIZE st (heap_end st).

(** A heap in the middle of a session: well formed, ending at the break of
    the memory system, in an arena that ends below the top of the address
    space. *)
Definition session_ok (st : state) (l : list blk) : Prop :=
  heap_ok st l
  /\ mem_brk st = heap_end st
  /\ mem_max_addr st + 16 <= modulus
  /\ tail_ok st.

(** The states of a session: [mm_init] on an arena of less than 4 GiB,
    whatever its bytes, then calls that return, with sizes up to
    [SIZE_MAX - 15] and pointers to live blocks. *)
Inductive reachable : state -> Prop :=
| reach_init (st0 : state) :
    0 < mem_brk st0 ->
    mem_max_addr st0 - mem_brk st0 <= 2 ^ 32 - 12 ->
    mem_max_addr st0 + 16 <= modulus ->
    fst (mm_init st0) = 0 ->
    reachable (snd (mm_init st0))
| reach_malloc (st : state) (fuel : nat) (size p : Z) (st' : state) :
    reachable st ->
    0 <= size <= SIZE_MAX - 15 ->
    mm_malloc fuel st size = Some (Ret p st') ->
    reachable st'
| reach_free (st : state) (l1 l2 : list blk) (b : blk) :
    reachable st ->
    heap_ok st (l1 ++ b :: l2) -> blk_alloc b = true ->
    reachable (mm_free st (GET_PLD_PTR (heap_start st + total_size l1)))
| reach_realloc (st : state) (fuel : nat) (l1 l2 : list blk) (b : blk)
                (size p : Z) (st' : state) :
    reachable st ->
    heap_ok st (l1 ++ b :: l2) -> blk_alloc b = true ->
    0 <= size <= SIZE_MAX - 15 ->
    mm_realloc fuel st (GET_PLD_PTR (heap_start st + total_size l1)) size
    = Some (Ret p st') ->
    reachable st'.

(** ** Concrete heaps *)

(** An arena of [cap] zero bytes at address [base], before [mm_init]. *)
Definition fresh (base cap : Z) : state :=
  mkState (fun _ => 0) base (base + cap) NULL NULL.

(** The state in which a call returned, and the pointer it returned. *)
Definition state_of (o : option (outcome Z)) (dflt : state) : state :=
  match o with
  | Some (Ret _ st) => st
  | Some (Exit _ st) => st
  | None => dflt
  end.

Definition ptr_of (o : option (outcome Z)) : Z :=
  match o with
  | Some (Ret p _) => p
  | _ => NULL
  end.

Definition returned (o : option (outcome Z)) : bool :=
  match o with
  | Some (Ret _ _) => true
  | _ => false
  end.

(** The status with which a call ended the process, if it did. *)
Definition exit_status (o : option (outcome Z)) : option Z :=
  match o with
  | Some (Exit code _) => Some code
  | _ => None
  end.

(** A session on a fresh arena at address 4096: three allocations, then
    the first and the third block are freed. *)
Module Session.

Definition s0 : state := snd (mm_init (fresh 4096 4096)).
Definition r1 := mm_malloc 8 s0 1.
Definition s1 : state := state_of r1 s0.
Definition r2 := mm_malloc 8 s1 24.
Definition s2 : state := state_of r2 s1.
Definition r3 := mm_malloc 8 s2 1.
Definition s3 : state := state_of r3 s2.
Definition s4 : state := mm_free s3 (ptr_of r1).
Definition s5 : state := mm_free s4 (ptr_of r3).
Definition s6 : state := mm_free s5 (ptr_of r2).

End Session.

(** Two allocations on a fresh arena, freed in heap order. *)
Module InOrder.

Definition s0 : state := snd (mm_init (fresh 4096 4096)).
Definition r1 := mm_malloc 8 s0 1.
Definition s1 : state := state_of r1 s0.
Definition r2 := mm_malloc 8 s1 1.
Definition s2 : state := state_of r2 s1.
Definition s3 : state := mm_free s2 (ptr_of r1).
Definition s4 : state := mm_free s3 (ptr_of r2).

End InOrder.

(** Arenas that cannot grow: one too small for a first block, and one that
    the first block fills. *)
Module Full.

Definition t0 : state := snd (mm_init (fresh 4096 16)).

Definition u0 : state := snd (mm_init (fresh 4096 20)).
Definition r1 := mm_malloc 8 u0 1.
Definition u1 : state := state_of r1 u0.

End Full.

(** A session on an arena that holds stale bytes. *)
Module Stale.

Definition arena : state :=
  mkState (fun a => a mod 251) 4096 (4096 + 4096) NULL NULL.
Definition s0 : state := snd (mm_init arena).
Definition r1 := mm_malloc 8 s0 1.
Definition s1 : state := state_of r1 s0.
Definition r2 := mm_malloc 8 s1 24.
Definition s2 : state := state_of r2 s1.
Definition s3 : state := mm_free s2 (ptr_of r1).

End Stale.

(** ** Machine words: arithmetic reading of the header macros *)

Lemma NOT_0x7_shift : NOT_0x7 = Z.shiftl (Z.ones 61) 3.
Proof. reflexivity. Qed.

Lemma SIZE_OF_arith (w : Z) : SIZE_OF w = 8 * ((w / 8) mod 2 ^ 61).
Proof.
  unfold SIZE_OF. rewrite NOT_0x7_shift.
  assert (E : Z.land w (Z.shiftl (Z.ones 61) 3)
              = Z.shiftl (Z.land (Z.shiftr w 3) (Z.ones 61)) 3).
  { apply Z.bits_inj'. intros n Hn.
    rewrite Z.land_spec.
    destruct (Z.ltb_spec n 3).
    - rewrite !Z.shiftl_spec_low by lia. apply andb_false_r.
    - rewrite !Z.shiftl_spec by lia. rewrite Z.land_spec, Z.shiftr_spec by lia.
      replace (n - 3 + 3) with n by lia. reflexivity. }
  rewrite E, Z.land_ones, Z.shiftr_div_pow2, Z.shiftl_mul_pow2 by lia.
  change (2 ^ 3) with 8. lia.
Qed.

Lemma ALLOC_OF_arith (w : Z) : ALLOC_OF w = w mod 2.
Proof.
  unfold ALLOC_OF. change 1 with (Z.ones 1).
  rewrite Z.land_ones by lia. reflexivity.
Qed.

Lemma PACK_arith (s : Z) (a : bool) :
  s mod 8 = 0 -> PACK s (alloc_bit a) = s + alloc_bit a.
Proof.
  intros H. unfold PACK. destruct a; simpl.
  - pose proof (Z.add_lor_land s 1) as E.
    change (Z.land s 1) with (ALLOC_OF s) in E.
    rewrite ALLOC_OF_arith in E. Z.div_mod_to_equations; lia.
  - rewrite Z.lor_0_r. lia.
Qed.

Lemma SIZE_OF_range (w : Z) : 0 <= SIZE_OF w < modulus /\ SIZE_OF w mod 8 = 0.
Proof.
  rewrite SIZE_OF_arith. change modulus with (2 ^ 64).
  pose proof (Z.mod_pos_bound (w / 8) (2 ^ 61) ltac:(lia)).
  split; [lia|]. rewrite Z.mul_comm. apply Z.mod_mul. lia.
Qed.

Lemma SIZE_OF_PACK (s : Z) (a : bool) :
  0 <= s < modulus -> s mod 8 = 0 -> SIZE_OF (PACK s (alloc_bit a)) = s.
Proof.
  intros Hs H8. rewrite PACK_arith, SIZE_OF_arith by exact H8.
  change modulus with (2 ^ 64) in Hs.
  assert (Hb : 0 <= alloc_bit a <= 1) by (destruct a; simpl; lia).
  assert (E : (s + alloc_bit a) / 8 = s / 8)
    by (Z.div_mod_to_equations; lia).
  rewrite E, Z.mod_small by (Z.div_mod_to_equations; lia).
  Z.div_mod_to_equations; lia.
Qed.

Lemma ALLOC_OF_PACK (s : Z) (a : bool) :
  s mod 8 = 0 -> ALLOC_OF (PACK s (alloc_bit a)) = alloc_bit a.
Proof.
  intros H8. rewrite PACK_arith, ALLOC_OF_arith by exact H8.
  destruct a; simpl; Z.div_mod_to_equations; lia.
Qed.

Lemma PACK_range (s : Z) (a : bool) :
  0 <= s < modulus -> s mod 8 = 0 -> 0 <= PACK s (alloc_bit a) < modulus.
Proof.
  intros Hs H8. rewrite PACK_arith by exact H8.
  change modulus with (2 ^ 64) in *.
  destruct a; simpl; Z.div_mod_to_equations; lia.
Qed.

(** ** Memory: a store is read back, and leaves other words alone *)

Lemma byte_sum (v : Z) : 0 <= v < modulus ->
  byte_of v 0 + byte_of v 1 * 2 ^ 8 + byte_of v 2 * 2 ^ 16
  + byte_of v 3 * 2 ^ 24 + byte_of v 4 * 2 ^ 32 + byte_of v 5 * 2 ^ 40
  + byte_of v 6 * 2 ^ 48 + byte_of v 7 * 2 ^ 56 = v.
Proof.
  intros H. change modulus with (2 ^ 64) in H.
  unfold byte_of. cbn -[Z.div Z.modulo] in *.
  Z.div_mod_to_equations. lia.
Qed.

Lemma load_store_same (m : memory) (p v : Z) :
  0 <= v < modulus -> load (store m p v) p = v.
Proof.
  intros H. unfold load, store.
  replace ((p <=? p) && (p <? p + 8)) with true by lia.
  rewrite Z.sub_diag.
  repeat match goal with
  | |- context [ (p <=? p + ?k) && (p + ?k <? p + 8) ] =>
      replace ((p <=? p + k) && (p + k <? p + 8)) with true by lia;
      replace (p + k - p) with k by lia
  end.
  apply byte_sum; exact H.
Qed.

Lemma load_store_other (m : memory) (p q v : Z) :
  q + 8 <= p \/ p + 8 <= q -> load (store m p v) q = load m q.
Proof.
  intros H. unfold load, store.
  replace ((p <=? q) && (q <? p + 8)) with false by lia.
  repeat match goal with
  | |- context [ (p <=? q + ?k) && (q + ?k <? p + 8) ] =>
      replace ((p <=? q + k) && (q + k <? p + 8)) with false by lia
  end.
  reflexivity.
Qed.

(** ** Headers in a state *)

Lemma GET_PUT_same (st : state) (p v : Z) :
  0 <= v < modulus -> GET (PUT st p v) p = v.
Proof. intros H. unfold GET, PUT; simpl. apply load_store_same, H. Qed.

Lemma GET_PUT_other (st : state) (p q v : Z) :
  q + 8 <= p \/ p + 8 <= q -> GET (PUT st p v) q = GET st q.
Proof. intros H. unfold GET, PUT; simpl. apply load_store_other, H. Qed.

Lemma wrap_small (x : Z) : 0 <= x < modulus -> wrap x = x.
Proof. intros H. unfold wrap. apply Z.mod_small, H. Qed.

Lemma GET_SIZE_range (st : state) (p : Z) :
  0 <= GET_SIZE st p < modulus /\ GET_SIZE st p mod 8 = 0.
Proof. apply SIZE_OF_range. Qed.

(** ** Tilings *)

Lemma tiles_total (m : memory) (hend : Z) (l : list blk) :
  forall bp, tiles m hend bp l ->
             0 <= total_size l /\ bp + total_size l = hend.
Proof.
  induction l as [|b l IH]; simpl; intros bp H.
  - lia.
  - destruct H as (_ & _ & H16 & _ & Ht).
    apply IH in Ht. lia.
Qed.

Lemma tiles_agree (m m' : memory) (hend : Z) (l : list blk) :
  forall bp,
    (forall q, bp <= q -> q + 16 <= hend -> load m' q = load m q) ->
    tiles m hend bp l -> tiles m' hend bp l.
Proof.
  induction l as [|b l IH]; simpl; intros bp Hag H.
  - exact H.
  - destruct H as (Hs & Ha & H16 & Hle & Ht).
    rewrite (Hag bp) by lia.
    repeat split; try assumption.
    apply IH; [|exact Ht].
    intros q Hq Hq'. apply Hag; lia.
Qed.

Lemma tiles_app (m : memory) (hend : Z) (l1 l2 : list blk) :
  forall bp,
    tiles m hend bp (l1 ++ l2) <->
    tiles m (bp + total_size l1) bp l1
    /\ tiles m hend (bp + total_size l1) l2.
Proof.
  induction l1 as [|b l1 IH]; simpl; intros bp.
  - rewrite Z.add_0_r. tauto.
  - rewrite (IH (bp + blk_size b)).
    replace (bp + (blk_size b + total_size l1))
      with (bp + blk_size b + total_size l1) by lia.
    split.
    + intros (Hs & Ha & H16 & Hle & Ht1 & Ht2).
      pose proof (tiles_total _ _ _ _ Ht1) as [Hn _].
      repeat split; try assumption. lia.
    + intros ((Hs & Ha & H16 & Hle & Ht1) & Ht2).
      pose proof (tiles_total _ _ _ _ Ht2) as [Hn He].
      repeat split; try assumption. lia.
Qed.

Lemma total_size_app (l1 l2 : list blk) :
  total_size (l1 ++ l2) = total_size l1 + total_size l2.
Proof. induction l1; simpl; lia. Qed.

(** ** The first-fit scan *)

Lemma first_fit_split (asize : Z) (l : list blk) :
  Forall (fun b => fits asize b = false) l
  \/ exists l1 b l2,
       l = l1 ++ b :: l2
       /\ Forall (fun b => fits asize b = false) l1
       /\ fits asize b = true.
Proof.
  induction l as [|b l IH].
  - left. constructor.
  - destruct (fits asize b) eqn:E.
    + right. exists [], b, l. repeat split; [constructor | exact E].
    + destruct IH as [IH | (l1 & b' & l2 & -> & Hf & Hb)].
      * left. constructor; assumption.
      * right. exists (b :: l1), b', l2.
        repeat split; [constructor; assumption | exact Hb].
Qed.

Lemma find_fit_test (st : state) (asize bp : Z) (b : blk) :
  SIZE_OF (load (mem st) bp) = blk_size b ->
  ALLOC_OF (load (mem st) bp) = alloc_bit (blk_alloc b) ->
  (GET_ALLOC st bp =? 0) && (asize <=? GET_SIZE st bp) = fits asize b.
Proof.
  intros Hs Ha. unfold GET_ALLOC, GET_SIZE, GET, fits.
  rewrite Hs, Ha. destruct (blk_alloc b); reflexivity.
Qed.

Lemma find_fit_from_skip (st : state) (asize : Z) (l1 : list blk) :
  forall bp fuel rest,
    tiles (mem st) (heap_end st) bp (l1 ++ rest) ->
    0 <= bp -> heap_end st < modulus ->
    Forall (fun b => fits asize b = false) l1 ->
    find_fit_from (length l1 + fuel) st asize bp
    = find_fit_from fuel st asize (bp + total_size l1).
Proof.
  induction l1 as [|b l1 IH]; intros bp fuel rest Ht Hbp Hend Hno.
  - simpl. rewrite Z.add_0_r. reflexivity.
  - inversion Hno as [|? ? Hb Hno']; subst.
    simpl in Ht. destruct Ht as (Hs & Ha & H16 & Hle & Ht).
    cbn [length Nat.add find_fit_from].
    replace (bp =? heap_end st) with false by lia.
    rewrite (find_fit_test st asize bp b Hs Ha), Hb.
    unfold NEXT_BLKP, GET_SIZE, GET. rewrite Hs, wrap_small by lia.
    rewrite (IH (bp + blk_size b) fuel rest Ht) by (assumption || lia).
    simpl. f_equal. lia.
Qed.

Lemma heap_ok_block (st : state) (l1 l2 : list blk) (b : blk) :
  heap_ok st (l1 ++ b :: l2) ->
  let bp := heap_start st + total_size l1 in
  0 < bp /\ bp + blk_size b <= heap_end st /\ 16 <= blk_size b
  /\ GET_SIZE st bp = blk_size b
  /\ GET_ALLOC st bp = alloc_bit (blk_alloc b)
  /\ NEXT_BLKP st bp = bp + blk_size b
  /\ (l2 = [] -> bp + blk_size b = heap_end st)
  /\ (l2 <> [] -> bp + blk_size b < heap_end st).
Proof.
  intros (Hs & He & Ht) bp.
  apply tiles_app in Ht. destruct Ht as [Ht1 Ht2]. fold bp in Ht1, Ht2.
  pose proof (tiles_total _ _ _ _ Ht1) as [Hn1 _].
  simpl in Ht2. destruct Ht2 as (Hsz & Hal & H16 & Hle & Ht2).
  repeat split; try assumption; try lia.
  - unfold NEXT_BLKP, GET_SIZE, GET. rewrite Hsz. apply wrap_small. lia.
  - intros ->. simpl in Ht2. exact Ht2.
  - intros Hne. destruct l2 as [|n l2']; [congruence|].
    simpl in Ht2. lia.
Qed.

Lemma find_fit_no_fit (st : state) (l : list blk) (asize : Z) (fuel : nat) :
  heap_ok st l -> (length l < fuel)%nat ->
  Forall (fun b => fits asize b = false) l ->
  find_fit fuel st asize = Some NULL.
Proof.
  intros (Hs & He & Ht) Hfuel Hno. unfold find_fit.
  replace fuel with (length l + S (fuel - length l - 1))%nat by lia.
  rewrite (find_fit_from_skip st asize l (heap_start st) _ [])
    by (rewrite ?app_nil_r; assumption || lia).
  apply tiles_total in Ht. simpl.
  replace (heap_start st + total_size l =? heap_end st) with true by lia.
  reflexivity.
Qed.

Lemma find_fit_at (st : state) (l1 l2 : list blk) (b : blk)
      (asize : Z) (fuel : nat) :
  heap_ok st (l1 ++ b :: l2) -> (length (l1 ++ b :: l2) < fuel)%nat ->
  Forall (fun b => fits asize b = false) l1 -> fits asize b = true ->
  find_fit fuel st asize = Some (heap_start st + total_size l1).
Proof.
  intros (Hs & He & Ht) Hfuel Hno Hb. unfold find_fit.
  pose proof Ht as Ht'. apply tiles_app in Ht'. destruct Ht' as [Ht1 Ht2].
  apply tiles_total in Ht1. simpl in Ht2.
  destruct Ht2 as (Hsz & Hal & H16 & Hle & _).
  rewrite length_app in Hfuel. simpl in Hfuel.
  replace fuel with (length l1 + S (fuel - length l1 - 1))%nat by lia.
  rewrite (find_fit_from_skip st asize l1 (heap_start st) _ (b :: l2))
    by (assumption || lia).
  simpl.
  replace (heap_start st + total_size l1 =? heap_end st) with false by lia.
  rewrite (find_fit_test st asize _ b Hsz Hal), Hb. reflexivity.
Qed.

Lemma block_addr_in (bp : Z) (l1 l2 : list blk) (b : blk) :
  In (bp + total_size l1) (block_addrs bp (l1 ++ b :: l2)).
Proof.
  revert bp. induction l1 as [|c l1 IH]; intros bp; simpl.
  - left. lia.
  - right. replace (bp + (blk_size c + total_size l1))
      with (bp + blk_size c + total_size l1) by lia. apply IH.
Qed.

Ltac by_evaluation :=
  vm_compute; repeat split; try reflexivity; try (intro; discriminate).

(** C1. On a well-formed heap, [find_fit] returns the first block in heap
    order, from [heap_start], that is free and of size at least [asize]
    (so the lowest-addressed one when several fit), and [NULL] when no free
    block fits; [mm_malloc] places the request in the block found. *)
Theorem find_fit_first_fit (st : state) (l : list blk) (asize : Z) (fuel : nat) :
  heap_ok st l -> (length l < fuel)%nat ->
  (Forall (fun b => fits asize b = false) l
   /\ find_fit fuel st asize = Some NULL)
  \/ (exists l1 b l2,
        l = l1 ++ b :: l2
        /\ Forall (fun b => fits asize b = false) l1
        /\ fits asize b = true
        /\ find_fit fuel st asize = Some (heap_start st + total_size l1)
        /\ heap_start st + total_size l1 <> NULL
        /\ forall size, adjust_size size = asize ->
             mm_malloc fuel st size
             = Some (Ret (GET_PLD_PTR (heap_start st + total_size l1))
                         (place st (heap_start st + total_size l1) asize))).
Proof.
  intros Hok Hfuel.
  destruct (first_fit_split asize l) as [Hno | (l1 & b & l2 & -> & Hno & Hb)].
  - left. split; [exact Hno|].
    apply (find_fit_no_fit st l); assumption.
  - right. exists l1, b, l2.
    pose proof (find_fit_at st l1 l2 b asize fuel Hok Hfuel Hno Hb) as Hfind.
    destruct (heap_ok_block st l1 l2 b Hok) as [Hpos _].
    repeat split; try assumption.
    + unfold NULL. lia.
    + intros size <-. unfold mm_malloc. rewrite Hfind.
      replace (heap_start st + total_size l1 =? NULL) with false
        by (unfold NULL; lia).
      reflexivity.
Qed.

Lemma find_fit_first_fit_witness :
  let l := [mkBlk 16 false; mkBlk 32 true; mkBlk 16 false] in
  (Forall (fun b => fits 16 b = false) l
   /\ find_fit 4 Session.s5 16 = Some NULL)
  \/ (exists l1 b l2,
        l = l1 ++ b :: l2
        /\ Forall (fun b => fits 16 b = false) l1
        /\ fits 16 b = true
        /\ find_fit 4 Session.s5 16
           = Some (heap_start Session.s5 + total_size l1)
        /\ heap_start Session.s5 + total_size l1 <> NULL
        /\ forall size, adjust_size size = 16 ->
             mm_malloc 4 Session.s5 size
             = Some (Ret (GET_PLD_PTR (heap_start Session.s5 + total_size l1))
                         (place Session.s5
                                (heap_start Session.s5 + total_size l1) 16))).
Proof.
  apply (find_fit_first_fit Session.s5
           [mkBlk 16 false; mkBlk 32 true; mkBlk 16 false] 16 4).
  - by_evaluation.
  - simpl; lia.
Defined.

(** C10. On a well-formed heap (blocks of at least 16 bytes that tile
    [heap_start, heap_end) exactly) every step of the scan moves to a
    strictly higher address that is still within the heap, and [find_fit]
    ends within one iteration per block plus one, with [NULL] or with a
    free block of size at least [asize]. *)
Theorem find_fit_terminates (st : state) (l : list blk) (asize : Z) (fuel : nat) :
  heap_ok st l -> (length l < fuel)%nat ->
  Forall (fun bp => bp < NEXT_BLKP st bp <= heap_end st)
         (block_addrs (heap_start st) l)
  /\ exists r,
       find_fit fuel st asize = Some r
       /\ (r = NULL
           \/ (In r (block_addrs (heap_start st) l)
               /\ GET_ALLOC st r = 0 /\ asize <= GET_SIZE st r)).
Proof.
  intros Hok Hfuel. split.
  - destruct Hok as (Hs & He & Ht).
    assert (G : forall l bp, 0 <= bp ->
               tiles (mem st) (heap_end st) bp l ->
               Forall (fun bp => bp < NEXT_BLKP st bp <= heap_end st)
                      (block_addrs bp l)).
    { clear - He. induction l as [|b l IH]; simpl; intros bp Hbp H.
      - constructor.
      - destruct H as (Hsz & _ & H16 & Hle & H).
        constructor; [|apply IH; [lia | exact H]].
        unfold NEXT_BLKP, GET_SIZE, GET. rewrite Hsz, wrap_small; lia. }
    apply G; [lia | exact Ht].
  - destruct (first_fit_split asize l) as [Hno | (l1 & b & l2 & -> & Hno & Hb)].
    + exists NULL. split; [|left; reflexivity].
      apply (find_fit_no_fit st l); assumption.
    + exists (heap_start st + total_size l1).
      split; [apply (find_fit_at st l1 l2 b); assumption|].
      right.
      destruct (heap_ok_block st l1 l2 b Hok)
        as (_ & _ & _ & Hsz & Hal & _).
      unfold fits in Hb. apply andb_prop in Hb. destruct Hb as [Hfree Hfit].
      repeat split.
      * apply block_addr_in.
      * rewrite Hal. destruct (blk_alloc b); [discriminate | reflexivity].
      * rewrite Hsz. lia.
Qed.

Lemma find_fit_terminates_witness :
  Forall (fun bp => bp < NEXT_BLKP Session.s5 bp <= heap_end Session.s5)
         (block_addrs (heap_start Session.s5)
            [mkBlk 16 false; mkBlk 32 true; mkBlk 16 false])
  /\ exists r,
       find_fit 4 Session.s5 40 = Some r
       /\ (r = NULL
           \/ (In r (block_addrs (heap_start Session.s5)
                       [mkBlk 16 false; mkBlk 32 true; mkBlk 16 false])
               /\ GET_ALLOC Session.s5 r = 0 /\ 40 <= GET_SIZE Session.s5 r)).
Proof.
  apply (find_fit_terminates Session.s5
           [mkBlk 16 false; mkBlk 32 true; mkBlk 16 false] 40 4).
  - by_evaluation.
  - simpl; lia.
Defined.

(** ** Placement *)

Lemma place_bounds (st : state) (bp asize : Z) :
  heap_start (place st bp asize) = heap_start st
  /\ heap_end (place st bp asize) = heap_end st
  /\ mem_brk (place st bp asize) = mem_brk st
  /\ mem_max_addr (place st bp asize) = mem_max_addr st.
Proof.
  unfold place. destruct (16 <=? wrap (GET_SIZE st bp - asize));
    simpl; repeat split; reflexivity.
Qed.

Lemma place_mem_split (st : state) (bp asize : Z) :
  0 <= bp -> bp + GET_SIZE st bp < modulus ->
  asize mod 8 = 0 -> 0 <= asize <= GET_SIZE st bp ->
  16 <= GET_SIZE st bp - asize ->
  mem (place st bp asize)
  = store (store (mem st) bp (PACK asize (alloc_bit true)))
          (bp + asize) (PACK (GET_SIZE st bp - asize) (alloc_bit false)).
Proof.
  intros Hbp Hend H8 Has Hsplit.
  pose proof (GET_SIZE_range st bp) as [Hr _].
  unfold place.
  rewrite (wrap_small (GET_SIZE st bp - asize)) by lia.
  replace (16 <=? GET_SIZE st bp - asize) with true by lia.
  cbn [mem PUT set_mem].
  unfold NEXT_BLKP, GET_SIZE at 1. rewrite GET_PUT_same.
  - change (PACK asize 1) with (PACK asize (alloc_bit true)).
    rewrite SIZE_OF_PACK by (assumption || lia).
    rewrite wrap_small by lia. reflexivity.
  - apply (PACK_range asize true); [lia | assumption].
Qed.

Lemma place_mem_whole (st : state) (bp asize : Z) :
  0 <= asize <= GET_SIZE st bp ->
  GET_SIZE st bp - asize < 16 ->
  mem (place st bp asize)
  = store (mem st) bp (PACK (GET_SIZE st bp) (alloc_bit true)).
Proof.
  intros Has Hwhole.
  pose proof (GET_SIZE_range st bp) as [Hr _].
  unfold place.
  rewrite (wrap_small (GET_SIZE st bp - asize)) by lia.
  replace (16 <=? GET_SIZE st bp - asize) with false by lia.
  reflexivity.
Qed.

(** A header just written decodes to the block it describes. *)
Lemma header_stored (m : memory) (p s : Z) (a : bool) :
  0 <= s < modulus -> s mod 8 = 0 ->
  SIZE_OF (load (store m p (PACK s (alloc_bit a))) p) = s
  /\ ALLOC_OF (load (store m p (PACK s (alloc_bit a))) p) = alloc_bit a.
Proof.
  intros Hs H8.
  rewrite load_store_same by (apply PACK_range; assumption).
  split; [apply SIZE_OF_PACK | apply ALLOC_OF_PACK]; assumption.
Qed.

(** C2. On a well-formed heap, placing [asize] (an adjusted size: a
    multiple of 8, at least the minimum block size) in a free block of size
    [csize >= asize]: when [csize - asize >= 16] the block becomes an
    allocated block of size exactly [asize] immediately followed by a new
    free block of size [csize - asize]; otherwise the whole block becomes
    allocated and keeps its size.  No other block changes. *)
Theorem place_splits_or_fills
  (st : state) (l1 l2 : list blk) (csize asize : Z) :
  heap_ok st (l1 ++ mkBlk csize false :: l2) ->
  asize mod 8 = 0 -> 16 <= asize <= csize ->
  let bp := heap_start st + total_size l1 in
  let st' := place st bp asize in
  (16 <= csize - asize ->
   heap_ok st' (l1 ++ mkBlk asize true :: mkBlk (csize - asize) false :: l2)
   /\ GET_SIZE st' bp = asize /\ GET_ALLOC st' bp = 1
   /\ GET_SIZE st' (NEXT_BLKP st' bp) = csize - asize
   /\ GET_ALLOC st' (NEXT_BLKP st' bp) = 0)
  /\ (csize - asize < 16 ->
      heap_ok st' (l1 ++ mkBlk csize true :: l2)
      /\ GET_SIZE st' bp = csize /\ GET_ALLOC st' bp = 1).
Proof.
  intros (Hs & He & Ht) H8 Has bp st'.
  apply tiles_app in Ht. destruct Ht as [Ht1 Ht2]. fold bp in Ht1, Ht2.
  pose proof (tiles_total _ _ _ _ Ht1) as [Hn1 _].
  simpl in Ht2. destruct Ht2 as (Hsz & Hal & H16 & Hle & Ht2).
  assert (Hcs : GET_SIZE st bp = csize) by exact Hsz.
  assert (Hc8 : csize mod 8 = 0)
    by (rewrite <- Hcs; apply GET_SIZE_range).
  destruct (place_bounds st bp asize) as (Bs & Be & _). fold st' in Bs, Be.
  split; intros Hcase.
  - assert (Hm : mem st'
                 = store (store (mem st) bp (PACK asize (alloc_bit true)))
                     (bp + asize) (PACK (csize - asize) (alloc_bit false))).
    { unfold st'. rewrite <- Hcs. apply place_mem_split; rewrite ?Hcs; lia. }
    assert (Hr8 : (csize - asize) mod 8 = 0)
      by (rewrite Zminus_mod, Hc8, H8; reflexivity).
    assert (Hhead : SIZE_OF (load (mem st') bp) = asize
                    /\ ALLOC_OF (load (mem st') bp) = 1).
    { rewrite Hm, load_store_other by lia.
      apply (header_stored (mem st) bp asize true); [lia | assumption]. }
    assert (Htail : SIZE_OF (load (mem st') (bp + asize)) = csize - asize
                    /\ ALLOC_OF (load (mem st') (bp + asize)) = 0).
    { rewrite Hm.
      apply (header_stored _ (bp + asize) (csize - asize) false);
        [lia | assumption]. }
    assert (Hnext : NEXT_BLKP st' bp = bp + asize).
    { unfold NEXT_BLKP, GET_SIZE, GET. rewrite (proj1 Hhead).
      apply wrap_small. lia. }
    split; [|rewrite Hnext; unfold GET_SIZE, GET_ALLOC, GET; tauto].
    unfold heap_ok. rewrite Bs, Be. repeat split; try assumption.
    apply tiles_app. fold bp. split.
    + apply (tiles_agree (mem st)); [|exact Ht1].
      intros q Hq Hq'. rewrite Hm, !load_store_other by lia. reflexivity.
    + simpl. repeat split; try tauto; try lia.
      replace (bp + asize + (csize - asize)) with (bp + csize) by lia.
      apply (tiles_agree (mem st)); [|exact Ht2].
      intros q Hq Hq'. rewrite Hm, !load_store_other by lia. reflexivity.
  - assert (Hm : mem st' = store (mem st) bp (PACK csize (alloc_bit true))).
    { unfold st'. rewrite <- Hcs. apply place_mem_whole; rewrite ?Hcs; lia. }
    assert (Hhead : SIZE_OF (load (mem st') bp) = csize
                    /\ ALLOC_OF (load (mem st') bp) = 1).
    { rewrite Hm.
      apply (header_stored (mem st) bp csize true); [lia | assumption]. }
    split; [|unfold GET_SIZE, GET_ALLOC, GET; tauto].
    unfold heap_ok. rewrite Bs, Be. repeat split; try assumption.
    apply tiles_app. fold bp. split.
    + apply (tiles_agree (mem st)); [|exact Ht1].
      intros q Hq Hq'. rewrite Hm, !load_store_other by lia. reflexivity.
    + simpl. repeat split; try tauto; try lia.
      apply (tiles_agree (mem st)); [|exact Ht2].
      intros q Hq Hq'. rewrite Hm, !load_store_other by lia. reflexivity.
Qed.

Lemma place_splits_or_fills_witness :
  heap_ok (place Session.s6 4116 16)
          [mkBlk 16 false; mkBlk 16 true; mkBlk 32 false].
Proof.
  apply (proj1 (place_splits_or_fills Session.s6 [mkBlk 16 false] [] 48 16
                  ltac:(by_evaluation) ltac:(reflexivity) ltac:(lia))).
  lia.
Defined.

(** ** Freeing *)

Lemma coalesce_bounds (st : state) (bp : Z) :
  heap_start (coalesce st bp) = heap_start st
  /\ heap_end (coalesce st bp) = heap_end st
  /\ mem_brk (coalesce st bp) = mem_brk st
  /\ mem_max_addr (coalesce st bp) = mem_max_addr st.
Proof.
  unfold coalesce.
  destruct ((NEXT_BLKP st bp <? heap_end st) && (GET_ALLOC st bp =? 0)
            && (GET_ALLOC st (NEXT_BLKP st bp) =? 0));
    simpl; repeat split; reflexivity.
Qed.

Lemma mm_free_bounds (st : state) (p : Z) :
  heap_start (mm_free st p) = heap_start st
  /\ heap_end (mm_free st p) = heap_end st
  /\ mem_brk (mm_free st p) = mem_brk st
  /\ mem_max_addr (mm_free st p) = mem_max_addr st.
Proof.
  exact (coalesce_bounds
           (PUT st (HDRP p) (PACK (GET_SIZE st (HDRP p)) 0)) (HDRP p)).
Qed.

Lemma HDRP_payload (bp : Z) :
  0 <= bp -> bp + 8 < modulus -> HDRP (GET_PLD_PTR bp) = bp.
Proof.
  intros H0 H1. unfold HDRP, GET_PLD_PTR, PAYLOAD_OFFSET.
  rewrite (wrap_small (bp + 8)) by lia.
  replace (bp + 8 - 8) with bp by lia. apply wrap_small. lia.
Qed.

Section Free.

Variables (st : state) (bp : Z).
Let s := GET_SIZE st bp.
Let s' := GET_SIZE st (bp + s).
Hypothesis Hbp : 0 <= bp.
Hypothesis Hs : 8 <= s.
Hypothesis Hend : bp + s < modulus.

Let st1 := PUT st bp (PACK s (alloc_bit false)).

Lemma free_header_cleared :
  GET_SIZE st1 bp = s /\ GET_ALLOC st1 bp = 0
  /\ NEXT_BLKP st1 bp = bp + s
  /\ GET st1 (bp + s) = GET st (bp + s).
Proof.
  pose proof (GET_SIZE_range st bp) as [Hr H8]. fold s in Hr, H8.
  destruct (header_stored (mem st) bp s false Hr H8) as [E1 E2].
  assert (E3 : GET_SIZE st1 bp = s) by exact E1.
  repeat split; try assumption.
  - unfold NEXT_BLKP. rewrite E3. apply wrap_small. lia.
  - unfold st1. apply GET_PUT_other. lia.
Qed.

(** The successor is inside the heap and free: the two blocks merge. *)
Lemma mm_free_mem_merge :
  bp + s < heap_end st -> GET_ALLOC st (bp + s) = 0 ->
  bp + s + s' < modulus ->
  mem (mm_free st (GET_PLD_PTR bp))
  = store (mem st1) bp (PACK (s + s') (alloc_bit false)).
Proof.
  intros Hin Hfree Hsum.
  destruct free_header_cleared as (E1 & E2 & E3 & E4).
  unfold mm_free. rewrite HDRP_payload by lia.
  change (mem (coalesce st1 bp)
          = store (mem st1) bp (PACK (s + s') (alloc_bit false))).
  unfold coalesce. rewrite E3.
  change (heap_end st1) with (heap_end st).
  replace (bp + s <? heap_end st) with true by lia.
  rewrite E2. unfold GET_ALLOC, GET_SIZE at 2. rewrite E4.
  fold (GET_ALLOC st (bp + s)). rewrite Hfree. fold (GET_SIZE st (bp + s)).
  fold s'. rewrite E1. cbn [Z.eqb andb].
  pose proof (GET_SIZE_range st (bp + s)) as [Hr' _]. fold s' in Hr'.
  rewrite wrap_small by lia. reflexivity.
Qed.

(** The successor is allocated, or there is none: nothing merges. *)
Lemma mm_free_mem_keep :
  heap_end st <= bp + s \/ GET_ALLOC st (bp + s) = 1 ->
  mem (mm_free st (GET_PLD_PTR bp)) = mem st1.
Proof.
  intros Hcase.
  destruct free_header_cleared as (E1 & E2 & E3 & E4).
  unfold mm_free. rewrite HDRP_payload by lia.
  change (mem (coalesce st1 bp) = mem st1).
  unfold coalesce. rewrite E3.
  change (heap_end st1) with (heap_end st).
  destruct Hcase as [Hout | Halloc].
  - replace (bp + s <? heap_end st) with false by lia. reflexivity.
  - unfold GET_ALLOC at 2. rewrite E4. fold (GET_ALLOC st (bp + s)).
    rewrite Halloc. rewrite andb_false_r. reflexivity.
Qed.

End Free.

Lemma tiles_store_block (m : memory) (hend base bp v : Z)
      (l1 l2 : list blk) (b : blk) :
  bp = base + total_size l1 ->
  tiles m bp base l1 ->
  SIZE_OF (load (store m bp v) bp) = blk_size b ->
  ALLOC_OF (load (store m bp v) bp) = alloc_bit (blk_alloc b) ->
  16 <= blk_size b -> bp + blk_size b <= hend ->
  tiles m hend (bp + blk_size b) l2 ->
  tiles (store m bp v) hend base (l1 ++ b :: l2).
Proof.
  intros -> Ht1 Hsz Hal H16 Hle Ht2.
  apply tiles_app. split.
  - apply (tiles_agree m); [|exact Ht1].
    intros q Hq Hq'. apply load_store_other. lia.
  - simpl. repeat split; try assumption.
    apply (tiles_agree m); [|exact Ht2].
    intros q Hq Hq'. apply load_store_other. lia.
Qed.

Lemma mm_free_blocks (st : state) (l1 l2 : list blk) (b : blk) :
  heap_ok st (l1 ++ b :: l2) ->
  heap_ok (mm_free st (GET_PLD_PTR (heap_start st + total_size l1)))
          (l1 ++ blocks_after_free b l2).
Proof.
  intros (Hs & He & Ht).
  set (bp := heap_start st + total_size l1).
  apply tiles_app in Ht. destruct Ht as [Ht1 Ht2]. fold bp in Ht1, Ht2.
  pose proof (tiles_total _ _ _ _ Ht1) as [Hn1 _].
  simpl in Ht2. destruct Ht2 as (Hsz & Hal & H16 & Hle & Ht2).
  change (SIZE_OF (load (mem st) bp)) with (GET_SIZE st bp) in Hsz.
  pose proof (GET_SIZE_range st bp) as [Hr H8]. rewrite Hsz in Hr, H8.
  destruct (mm_free_bounds st (GET_PLD_PTR bp)) as (Bs & Be & _).
  unfold heap_ok. rewrite Bs, Be. repeat split; try assumption.
  destruct l2 as [|n l2'].
  - (* no successor *)
    simpl in Ht2.
    rewrite (mm_free_mem_keep st bp) by (rewrite ?Hsz; lia).
    rewrite Hsz. cbn [blocks_after_free mem PUT set_mem].
    destruct (header_stored (mem st) bp (blk_size b) false Hr H8) as [E1 E2].
    apply (tiles_store_block (mem st) (heap_end st) (heap_start st) bp _
             l1 [] (mkBlk (blk_size b) false));
      try assumption; try reflexivity.
  - simpl in Ht2. destruct Ht2 as (Hsz' & Hal' & H16' & Hle' & Ht3).
    change (SIZE_OF (load (mem st) (bp + blk_size b)))
      with (GET_SIZE st (bp + blk_size b)) in Hsz'.
    change (ALLOC_OF (load (mem st) (bp + blk_size b)))
      with (GET_ALLOC st (bp + blk_size b)) in Hal'.
    cbn [blocks_after_free].
    destruct (blk_alloc n) eqn:En; simpl in Hal'.
    + (* allocated successor *)
      rewrite (mm_free_mem_keep st bp) by (rewrite ?Hsz; (right; assumption) || lia).
      rewrite Hsz. cbn [mem PUT set_mem].
      destruct (header_stored (mem st) bp (blk_size b) false Hr H8) as [E1 E2].
      apply (tiles_store_block (mem st) (heap_end st) (heap_start st) bp _
               l1 (n :: l2') (mkBlk (blk_size b) false));
        try assumption; try reflexivity.
      simpl. rewrite En. repeat split; assumption.
    + (* free successor *)
      pose proof (GET_SIZE_range st (bp + blk_size b)) as [Hr' H8'].
      rewrite Hsz' in Hr', H8'.
      rewrite (mm_free_mem_merge st bp)
        by (rewrite ?Hsz, ?Hsz'; assumption || lia).
      rewrite Hsz, Hsz'. cbn [mem PUT set_mem].
      assert (Hsum : 0 <= blk_size b + blk_size n < modulus) by lia.
      assert (Hsum8 : (blk_size b + blk_size n) mod 8 = 0)
        by (rewrite Zplus_mod, H8, H8'; reflexivity).
      destruct (header_stored (store (mem st) bp (PACK (blk_size b) (alloc_bit false)))
                  bp (blk_size b + blk_size n) false Hsum Hsum8) as [E1 E2].
      apply (tiles_store_block _ (heap_end st) (heap_start st) bp _
               l1 l2' (mkBlk (blk_size b + blk_size n) false));
        try assumption; try reflexivity; simpl; try lia.
      * apply (tiles_agree (mem st)); [|exact Ht1].
        intros q Hq Hq'. apply load_store_other. lia.
      * replace (bp + (blk_size b + blk_size n))
          with (bp + blk_size b + blk_size n) by lia.
        apply (tiles_agree (mem st)); [|exact Ht3].
        intros q Hq Hq'. apply load_store_other. lia.
Qed.


(** C3. On a well-formed heap, for the payload pointer [p] of an allocated
    block, [mm_free] finds the header just before [p] and clears its
    allocated flag; when the next block lies before [heap_end] and is free,
    the header is rewritten to the sum of the two sizes and the two blocks
    are one free block; when the next block is allocated, or the block is
    the last one (its successor is at [heap_end]), the size is unchanged.
    The heap bounds and all other blocks stay as they were. *)
Theorem mm_free_coalesces_next (st : state) (l1 l2 : list blk) (b : blk) :
  heap_ok st (l1 ++ b :: l2) -> blk_alloc b = true ->
  let blockp := heap_start st + total_size l1 in
  let p := GET_PLD_PTR blockp in
  let st' := mm_free st p in
  HDRP p = blockp
  /\ GET_ALLOC st' blockp = 0
  /\ heap_start st' = heap_start st /\ heap_end st' = heap_end st
  /\ match l2 with
     | [] =>
         NEXT_BLKP st blockp = heap_end st
         /\ GET_SIZE st' blockp = blk_size b
         /\ heap_ok st' (l1 ++ [mkBlk (blk_size b) false])
     | n :: l2' =>
         NEXT_BLKP st blockp < heap_end st
         /\ if blk_alloc n then
              GET_SIZE st' blockp = blk_size b
              /\ heap_ok st' (l1 ++ mkBlk (blk_size b) false :: n :: l2')
            else
              GET_SIZE st' blockp = blk_size b + blk_size n
              /\ heap_ok st' (l1 ++ mkBlk (blk_size b + blk_size n) false :: l2')
     end.
Proof.
  intros Hok Halloc blockp p st'.
  pose proof (heap_ok_block st l1 l2 b Hok) as (H0 & Hle & H16 & _ & _ & Hnext & Hlast & Hmid).
  fold blockp in H0, Hle, Hnext, Hlast, Hmid.
  pose proof (mm_free_blocks st l1 l2 b Hok) as Hok'.
  fold blockp in Hok'. fold p in Hok'. fold st' in Hok'.
  destruct (mm_free_bounds st p) as (Bs & Be & _). fold st' in Bs, Be.
  destruct Hok as (_ & He & _).
  split; [apply HDRP_payload; lia|].
  assert (Hhead : forall c rest,
             heap_ok st' (l1 ++ c :: rest) ->
             GET_SIZE st' blockp = blk_size c
             /\ GET_ALLOC st' blockp = alloc_bit (blk_alloc c)).
  { intros c rest Hc.
    pose proof (heap_ok_block st' l1 rest c Hc) as (_ & _ & _ & E1 & E2 & _).
    rewrite Bs in E1, E2. split; assumption. }
  destruct l2 as [|n l2']; cbn [blocks_after_free] in Hok'.
  - destruct (Hhead _ _ Hok') as [E1 E2].
    split; [exact E2|]. split; [exact Bs|]. split; [exact Be|].
    split; [|split; [exact E1 | exact Hok']].
    rewrite Hnext. apply Hlast. reflexivity.
  - assert (Hlt : NEXT_BLKP st blockp < heap_end st)
      by (rewrite Hnext; apply Hmid; discriminate).
    destruct (blk_alloc n); destruct (Hhead _ _ Hok') as [E1 E2];
      (split; [exact E2|]); (split; [exact Bs|]); (split; [exact Be|]);
      (split; [exact Hlt|]); (split; [exact E1 | exact Hok']).
Qed.

Lemma mm_free_coalesces_next_witness :
  heap_ok (mm_free Session.s5 (GET_PLD_PTR 4116)) [mkBlk 16 false; mkBlk 48 false].
Proof.
  pose proof (mm_free_coalesces_next Session.s5
                [mkBlk 16 false] [mkBlk 16 false] (mkBlk 32 true)
                ltac:(by_evaluation) ltac:(reflexivity)) as H.
  cbv zeta in H. destruct H as (_ & _ & _ & _ & _ & H).
  cbn [blk_alloc blk_size Z.add Pos.add Pos.succ] in H.
  destruct H as [_ H]. exact H.
Defined.

(** ** Forward-only coalescing *)

Lemma adjacent_free_eq (a b : blk) (l : list blk) :
  adjacent_free (a :: b :: l)
  = (negb (blk_alloc a) && negb (blk_alloc b)) || adjacent_free (b :: l).
Proof. reflexivity. Qed.

Lemma adjacent_free_cons (a : blk) (l : list blk) :
  adjacent_free (a :: l) = false -> adjacent_free l = false.
Proof.
  destruct l as [|b l]; [reflexivity|].
  cbn [adjacent_free]. intros H. apply orb_false_elim in H. apply H.
Qed.

Lemma adjacent_free_app (l1 l2 : list blk) :
  adjacent_free (l1 ++ l2) = false ->
  adjacent_free l1 = false /\ adjacent_free l2 = false.
Proof.
  induction l1 as [|a l1 IH]; intros H.
  - split; [reflexivity | exact H].
  - pose proof (adjacent_free_cons _ _ H) as H'.
    destruct (IH H') as [IH1 IH2]. split; [|exact IH2].
    destruct l1 as [|c l1]; [reflexivity|].
    cbn [app adjacent_free] in H |- *.
    apply orb_false_elim in H. destruct H as [H _].
    rewrite H. exact IH1.
Qed.

(** C4 as stated fails: two blocks are allocated on a fresh heap and freed
    in heap order.  Before the second [mm_free] no two neighbours are both
    free; after it the two blocks are both free and still separate, the
    first one never being merged with the block after it. *)
Lemma free_in_order_leaves_free_neighbours :
  heap_ok InOrder.s2 [mkBlk 16 true; mkBlk 16 true]
  /\ heap_ok InOrder.s3 [mkBlk 16 false; mkBlk 16 true]
  /\ adjacent_free [mkBlk 16 false; mkBlk 16 true] = false
  /\ heap_ok InOrder.s4 [mkBlk 16 false; mkBlk 16 false]
  /\ adjacent_free [mkBlk 16 false; mkBlk 16 false] = true.
Proof. by_evaluation. Qed.

(** C4, amended. When no two neighbours are both free before [mm_free] is
    called on an allocated block, then afterwards no two neighbours are
    both free among the blocks before the freed block, nor from the freed
    block on: the only free neighbours there can be are the freed block and
    the block just before it, which [coalesce] never merges. *)
Theorem mm_free_no_free_neighbours_forward
  (st : state) (l1 l2 : list blk) (b : blk) :
  heap_ok st (l1 ++ b :: l2) -> blk_alloc b = true ->
  adjacent_free (l1 ++ b :: l2) = false ->
  let st' := mm_free st (GET_PLD_PTR (heap_start st + total_size l1)) in
  exists b' l2',
    heap_ok st' (l1 ++ b' :: l2')
    /\ blk_alloc b' = false
    /\ adjacent_free l1 = false
    /\ adjacent_free (b' :: l2') = false.
Proof.
  intros Hok Halloc Hadj st'.
  pose proof (mm_free_blocks st l1 l2 b Hok) as Hok'. fold st' in Hok'.
  apply adjacent_free_app in Hadj. destruct Hadj as [Hadj1 Hadj2].
  pose proof (adjacent_free_cons _ _ Hadj2) as Hadj3.
  destruct l2 as [|n l2']; cbn [blocks_after_free] in Hok'.
  - exists (mkBlk (blk_size b) false), [].
    split; [exact Hok'|]. repeat split; assumption || reflexivity.
  - destruct (blk_alloc n) eqn:En.
    + exists (mkBlk (blk_size b) false), (n :: l2').
      split; [exact Hok'|]. repeat split; try assumption.
      rewrite adjacent_free_eq, Hadj3, En. reflexivity.
    + exists (mkBlk (blk_size b + blk_size n) false), l2'.
      split; [exact Hok'|]. repeat split; try assumption.
      destruct l2' as [|c l2'']; [reflexivity|].
      rewrite adjacent_free_eq in Hadj3 |- *.
      rewrite En in Hadj3. exact Hadj3.
Qed.

Lemma mm_free_no_free_neighbours_forward_witness :
  exists b' l2',
    heap_ok (mm_free Session.s3 (GET_PLD_PTR (heap_start Session.s3 + 16)))
            ([mkBlk 16 true] ++ b' :: l2')
    /\ blk_alloc b' = false
    /\ adjacent_free [mkBlk 16 true] = false
    /\ adjacent_free (b' :: l2') = false.
Proof.
  apply (mm_free_no_free_neighbours_forward Session.s3
           [mkBlk 16 true] [mkBlk 16 true] (mkBlk 32 true)).
  - by_evaluation.
  - reflexivity.
  - reflexivity.
Defined.

(** ** Header words *)

(** C9. For every size [s] that is a multiple of 8 and every flag [a] in
    {0, 1}, the packed header [PACK(s, a)] decodes to [s] and [a]; and the
    size field of any header word is a multiple of 8. *)
Theorem header_pack_roundtrip (st : state) (p s a : Z) :
  0 <= s < modulus -> s mod 8 = 0 -> a = 0 \/ a = 1 ->
  GET_SIZE (PUT st p (PACK s a)) p = s
  /\ GET_ALLOC (PUT st p (PACK s a)) p = a
  /\ SIZE_OF (PACK s a) = s
  /\ ALLOC_OF (PACK s a) = a
  /\ (forall w, SIZE_OF w mod 8 = 0)
  /\ (forall q, GET_SIZE st q mod 8 = 0).
Proof.
  intros Hs H8 Ha.
  assert (E : exists f, a = alloc_bit f)
    by (destruct Ha as [-> | ->]; [exists false | exists true]; reflexivity).
  destruct E as [f ->].
  destruct (header_stored (mem st) p s f Hs H8) as [E1 E2].
  repeat split.
  - exact E1.
  - exact E2.
  - apply SIZE_OF_PACK; assumption.
  - apply ALLOC_OF_PACK; assumption.
  - intros w. apply SIZE_OF_range.
  - intros q. apply GET_SIZE_range.
Qed.

Lemma header_pack_roundtrip_witness :
  GET_SIZE (PUT Session.s0 4100 (PACK 24 1)) 4100 = 24
  /\ GET_ALLOC (PUT Session.s0 4100 (PACK 24 1)) 4100 = 1
  /\ SIZE_OF (PACK 24 1) = 24
  /\ ALLOC_OF (PACK 24 1) = 1
  /\ (forall w, SIZE_OF w mod 8 = 0)
  /\ (forall q, GET_SIZE Session.s0 q mod 8 = 0).
Proof.
  apply (header_pack_roundtrip Session.s0 4100 24 1).
  - vm_compute. split; [intro; discriminate | reflexivity].
  - reflexivity.
  - right; reflexivity.
Defined.

(** ** The adjusted block size *)

(** Within [size <= SIZE_MAX - 15] nothing wraps around. *)
Lemma adjust_size_no_wrap (size : Z) :
  0 <= size <= SIZE_MAX - 15 ->
  adjust_size size = if size <=? 8 then 16 else 8 + 8 * ((size + 7) / 8).
Proof.
  intros Hsz. unfold adjust_size, DSIZE, OVERHEAD.
  change SIZE_MAX with (2 ^ 64 - 1) in *.
  destruct (Z.leb_spec size 8) as [Hle | Hgt]; [reflexivity|].
  change (8 - 1) with 7.
  rewrite (wrap_small (size + 7)) by (change modulus with (2 ^ 64); lia).
  rewrite (wrap_small ((size + 7) / 8 * 8))
    by (change modulus with (2 ^ 64); Z.div_mod_to_equations; lia).
  rewrite wrap_small
    by (change modulus with (2 ^ 64); Z.div_mod_to_equations; lia).
  lia.
Qed.

Lemma adjust_size_room (size : Z) :
  0 <= size <= SIZE_MAX - 15 ->
  adjust_size size mod 8 = 0 /\ size + 8 <= adjust_size size
  /\ 16 <= adjust_size size <= SIZE_MAX - 7.
Proof.
  intros Hsz. rewrite (adjust_size_no_wrap size Hsz).
  change SIZE_MAX with (2 ^ 64 - 1) in *.
  destruct (Z.leb_spec size 8) as [Hle | Hgt].
  - repeat split; try reflexivity; lia.
  - repeat split; Z.div_mod_to_equations; lia.
Qed.

(** Within [size <= SIZE_MAX - 15] the adjusted size is the smallest
    multiple of 8 that is at least [size + 8] and at least 16: it is 16 for
    [size <= 8] and [8 + 8 * ((size + 7) / 8)] otherwise. *)
Theorem adjust_size_in_range (size : Z) :
  0 <= size <= SIZE_MAX - 15 ->
  let asize := adjust_size size in
  asize mod 8 = 0 /\ size + 8 <= asize /\ 16 <= asize
  /\ (forall k, k mod 8 = 0 -> size + 8 <= k -> 16 <= k -> asize <= k)
  /\ (size <= 8 -> asize = 16)
  /\ (8 < size -> asize = 8 + 8 * ((size + 7) / 8)).
Proof.
  intros Hsz asize.
  destruct (adjust_size_room size Hsz) as (H8 & Hfit & Hmin & _).
  fold asize in H8, Hfit, Hmin.
  pose proof (adjust_size_no_wrap size Hsz) as E. fold asize in E.
  destruct (Z.leb_spec size 8) as [Hle | Hgt].
  - repeat split; try assumption; intros; lia.
  - repeat split; try assumption; try (intros; lia).
    intros k Hk8 Hk Hk16. rewrite E.
    Z.div_mod_to_equations. lia.
Qed.

Lemma adjust_size_in_range_witness :
  adjust_size 24 mod 8 = 0 /\ 24 + 8 <= adjust_size 24 /\ 16 <= adjust_size 24
  /\ (forall k, k mod 8 = 0 -> 24 + 8 <= k -> 16 <= k -> adjust_size 24 <= k)
  /\ (24 <= 8 -> adjust_size 24 = 16)
  /\ (8 < 24 -> adjust_size 24 = 8 + 8 * ((24 + 7) / 8)).
Proof.
  apply (adjust_size_in_range 24). vm_compute.
  split; intro; discriminate.
Defined.

(** Every adjusted size is a multiple of 8 that fits a [size_t]. *)
Lemma adjust_size_aligned (size : Z) :
  0 <= adjust_size size < modulus /\ adjust_size size mod 8 = 0.
Proof.
  unfold adjust_size, DSIZE, OVERHEAD.
  destruct (size <=? 8); [vm_compute; repeat split; intro; discriminate|].
  set (x := wrap (size + (8 - 1))).
  assert (Hx : 0 <= x < 2 ^ 64) by (apply Z.mod_pos_bound; reflexivity).
  unfold wrap at 2. change modulus with (2 ^ 64).
  unfold wrap. change modulus with (2 ^ 64).
  split; [apply Z.mod_pos_bound; reflexivity|].
  Z.div_mod_to_equations. lia.
Qed.

(** C7 at the top of the [size_t] range: [size + (DSIZE - 1)] wraps around,
    so the adjusted size of a request of [SIZE_MAX] bytes is 8 (a header
    and no payload, below the minimum block size), and that of
    [SIZE_MAX - 7] bytes is 0. *)
Theorem adjust_size_wraps_around :
  adjust_size SIZE_MAX = 8 /\ adjust_size (SIZE_MAX - 7) = 0.
Proof. split; reflexivity. Qed.

(** ** Extending the heap *)

(** For an adjusted size the request is an even number of words and
    exactly [asize] bytes. *)
Lemma extend_size_adjusted (asize : Z) :
  0 <= asize < modulus -> asize mod 8 = 0 ->
  (asize / WSIZE) mod 2 = 0 /\ extend_size (asize / WSIZE) = asize.
Proof.
  intros Hr H8. unfold extend_size, WSIZE.
  assert (E : (asize / 4) mod 2 = 0) by (Z.div_mod_to_equations; lia).
  rewrite E. cbn [Z.eqb]. split; [reflexivity|].
  rewrite wrap_small; Z.div_mod_to_equations; lia.
Qed.

Lemma extend_size_adjusted_witness :
  (32 / WSIZE) mod 2 = 0 /\ extend_size (32 / WSIZE) = 32.
Proof.
  apply (extend_size_adjusted 32); [|reflexivity].
  vm_compute. split; [intro; discriminate | reflexivity].
Defined.

Lemma extend_heap_mem (st : state) (words : Z) :
  mem (snd (extend_heap st words)) = mem st.
Proof.
  unfold extend_heap, mem_sbrk.
  destruct (mem_max_addr st <? mem_brk st + extend_size words);
    [reflexivity|].
  destruct (mem_brk st =? NULL); reflexivity.
Qed.

(** C5, where the code departs from it: [extend_heap] stores nothing, so
    the added region gets no header.  On a fresh heap, the first
    [mm_malloc(1)] extends the heap by 16 bytes at 4100 and the word there
    is still 0: its size field is 0, not 16.  [place] then reads that word
    as the block size, splits, and writes the header of a remainder of
    [2^64 - 16] bytes at the new [heap_end], past what [mem_sbrk] gave;
    when the block fills the arena, that header lies past the arena's
    end. *)
Theorem extend_heap_writes_no_header :
  (forall st words, mem (snd (extend_heap st words)) = mem st)
  /\ fst (extend_heap Session.s0 (adjust_size 1 / WSIZE)) = 4100
  /\ heap_end (snd (extend_heap Session.s0 (adjust_size 1 / WSIZE))) = 4116
  /\ GET (snd (extend_heap Session.s0 (adjust_size 1 / WSIZE))) 4100 = 0
  /\ PACK 16 0 = 16
  /\ heap_end Session.s1 = 4116 /\ mem_brk Session.s1 = 4116
  /\ GET Session.s1 4116 = PACK (modulus - 16) 0
  /\ returned Full.r1 = true
  /\ mem_brk Full.u1 = mem_max_addr Full.u1
  /\ GET Full.u1 (mem_max_addr Full.u1) = PACK (modulus - 16) 0.
Proof. split; [exact extend_heap_mem | by_evaluation]. Qed.

(** ** Failure of the growth primitive *)

(** C6 as stated fails: when [mem_sbrk] cannot grow the heap, [mm_malloc]
    and [mm_realloc] return nothing to their caller; the process exits
    with status 1. *)
Lemma growth_failure_is_not_returned :
  fst (mem_sbrk Full.t0 (extend_size (adjust_size 1 / WSIZE))) = NULL
  /\ returned (mm_malloc 8 Full.t0 1) = false
  /\ exit_status (mm_malloc 8 Full.t0 1) = Some 1
  /\ returned Full.r1 = true
  /\ fst (mem_sbrk Full.u1 (extend_size (adjust_size 24 / WSIZE))) = NULL
  /\ returned (mm_realloc 8 Full.u1 (ptr_of Full.r1) 24) = false
  /\ exit_status (mm_realloc 8 Full.u1 (ptr_of Full.r1) 24) = Some 1.
Proof. by_evaluation. Qed.

(** C6, amended. When [find_fit] finds no block and [mem_sbrk] fails for
    the bytes [extend_heap] asks for, [mm_malloc] ends the process with
    [exit(1)], and so does [mm_realloc]: nothing is returned to the caller
    and nothing is retried.  At that point memory and the heap bounds are
    as they were when the call began. *)
Theorem mm_malloc_exits_on_growth_failure
  (fuel : nat) (st : state) (size : Z) :
  find_fit fuel st (adjust_size size) = Some NULL ->
  fst (mem_sbrk st (extend_size (adjust_size size / WSIZE))) = NULL ->
  exists st',
    mm_malloc fuel st size = Some (Exit 1 st')
    /\ (forall ptr, mm_realloc fuel st ptr size = Some (Exit 1 st'))
    /\ mem st' = mem st
    /\ heap_start st' = heap_start st /\ heap_end st' = heap_end st.
Proof.
  intros Hfit Hfail.
  exists (snd (mem_sbrk st (extend_size (adjust_size size / WSIZE)))).
  assert (E : mm_malloc fuel st size
              = Some (Exit 1 (snd (mem_sbrk st
                         (extend_size (adjust_size size / WSIZE)))))).
  { unfold mm_malloc. rewrite Hfit. cbn [Z.eqb NULL negb].
    unfold extend_heap.
    destruct (mem_sbrk st (extend_size (adjust_size size / WSIZE)))
      as [bp st1] eqn:Es.
    simpl in Hfail. subst bp. reflexivity. }
  split; [exact E|]. split.
  - intros ptr. unfold mm_realloc. rewrite E. reflexivity.
  - unfold mem_sbrk.
    destruct (mem_max_addr st <? mem_brk st + _); repeat split; reflexivity.
Qed.

Lemma mm_malloc_exits_on_growth_failure_witness :
  exists st',
    mm_malloc 8 Full.u1 24 = Some (Exit 1 st')
    /\ (forall ptr, mm_realloc 8 Full.u1 ptr 24 = Some (Exit 1 st'))
    /\ mem st' = mem Full.u1
    /\ heap_start st' = heap_start Full.u1 /\ heap_end st' = heap_end Full.u1.
Proof.
  apply (mm_malloc_exits_on_growth_failure 8 Full.u1 24).
  - vm_compute. reflexivity.
  - vm_compute. reflexivity.
Defined.

(** ** Reallocation *)

(** C8 at [m = SIZE_MAX]: the live 16-byte block at 4100 is reallocated to
    [SIZE_MAX] bytes.  The adjusted size wraps to 8, the heap grows by 8
    bytes and the call returns the pointer 4124, which is [heap_end]: the
    returned block is a header with no payload, far from [m] usable bytes,
    and the 16 bytes copied to it land outside the heap. *)
Theorem mm_realloc_size_max_returns_empty_block :
  heap_ok Session.s1 [mkBlk 16 true]
  /\ ptr_of Session.r1 = 4108
  /\ returned (mm_realloc 8 Session.s1 4108 SIZE_MAX) = true
  /\ ptr_of (mm_realloc 8 Session.s1 4108 SIZE_MAX) = 4124
  /\ heap_end (state_of (mm_realloc 8 Session.s1 4108 SIZE_MAX) Session.s1)
     = 4124
  /\ GET_SIZE (state_of (mm_realloc 8 Session.s1 4108 SIZE_MAX) Session.s1)
              (HDRP 4124) = 8.
Proof. by_evaluation. Qed.

(** *** What the parts of [mm_realloc] leave untouched *)

Lemma load_ext (m m' : memory) (q : Z) :
  (forall a, q <= a < q + 8 -> m' a = m a) -> load m' q = load m q.
Proof.
  intros H. unfold load.
  rewrite (H q), (H (q + 1)), (H (q + 2)), (H (q + 3)), (H (q + 4)),
    (H (q + 5)), (H (q + 6)), (H (q + 7)) by lia.
  reflexivity.
Qed.

Lemma store_outside (m : memory) (p v a : Z) :
  a < p \/ p + 8 <= a -> store m p v a = m a.
Proof.
  intros H. unfold store.
  replace ((p <=? a) && (a <? p + 8)) with false by lia. reflexivity.
Qed.

Lemma wrap_range (x : Z) : 0 <= wrap x < modulus.
Proof. apply Z.mod_pos_bound. reflexivity. Qed.

Lemma wrap_aligned (x : Z) : x mod 8 = 0 -> wrap x mod 8 = 0.
Proof.
  intros H. unfold wrap. change modulus with (2 ^ 64).
  Z.div_mod_to_equations. lia.
Qed.

Lemma mm_free_mem_outside (st : state) (p a : Z) :
  a < HDRP p \/ HDRP p + 8 <= a -> mem (mm_free st p) a = mem st a.
Proof.
  intros H. unfold mm_free, coalesce.
  match goal with |- context [if ?c then _ else _] => destruct c end;
    cbn [mem PUT set_mem]; rewrite !store_outside by exact H; reflexivity.
Qed.


Section Place.

Variables (st : state) (bp asize : Z).
Hypothesis Hbp : 0 <= bp.
Hypothesis Has : 8 <= asize.
Hypothesis Has8 : asize mod 8 = 0.
Hypothesis Hend : bp + asize < modulus.
Hypothesis Hbig : asize + 16 <= modulus.

Lemma place_next :
  NEXT_BLKP (PUT st bp (PACK asize 1)) bp = bp + asize.
Proof.
  unfold NEXT_BLKP, GET_SIZE, GET. cbn [mem PUT set_mem].
  pose proof (header_stored (mem st) bp asize true ltac:(lia) Has8) as [E _].
  cbn [alloc_bit] in E. rewrite E.
  apply wrap_small. lia.
Qed.

(** [place] writes the header at [bp] and at most one more word, the
    header of the remainder at [bp + asize]. *)
Lemma place_mem_frame (a : Z) :
  a < bp \/ bp + 8 <= a -> a < bp + asize \/ bp + asize + 8 <= a ->
  mem (place st bp asize) a = mem st a.
Proof.
  intros H1 H2. unfold place.
  destruct (16 <=? wrap (GET_SIZE st bp - asize)).
  - rewrite place_next. cbn [mem PUT set_mem].
    rewrite !store_outside by assumption. reflexivity.
  - cbn [mem PUT set_mem]. apply store_outside, H1.
Qed.

(** After [place] the block at [bp] is allocated and of size at least
    [asize], whatever word was at [bp] before. *)
Lemma place_header :
  GET_ALLOC (place st bp asize) bp = 1
  /\ asize <= GET_SIZE (place st bp asize) bp.
Proof.
  pose proof (GET_SIZE_range st bp) as [Hr H8].
  unfold place.
  destruct (Z.leb_spec 16 (wrap (GET_SIZE st bp - asize))) as [Hsplit | Hwhole].
  - rewrite place_next.
    unfold GET_ALLOC, GET_SIZE, GET. cbn [mem PUT set_mem].
    rewrite load_store_other by lia.
    destruct (header_stored (mem st) bp asize true ltac:(lia) Has8) as [E1 E2].
    cbn [alloc_bit] in E1, E2. rewrite E1. split; [exact E2 | lia].
  - set (c := GET_SIZE st bp) in *.
    unfold GET_ALLOC, GET_SIZE, GET. cbn [mem PUT set_mem].
    destruct (header_stored (mem st) bp c true Hr H8) as [E1 E2].
    cbn [alloc_bit] in E1, E2. rewrite E1. split; [exact E2|].
    destruct (Z.le_gt_cases asize c) as [Hle | Hgt]; [exact Hle|].
    exfalso. unfold wrap in Hwhole.
    replace ((c - asize) mod modulus) with (c - asize + modulus) in Hwhole;
      [lia|].
    apply Z.mod_unique with (q := -1); lia.
Qed.

End Place.

(** *** Two blocks of one heap do not overlap *)

Lemma tiles_sizes (m : memory) (hend : Z) (l : list blk) :
  forall bp, tiles m hend bp l -> Forall (fun x => 0 <= blk_size x) l.
Proof.
  induction l as [|b l IH]; simpl; intros bp H.
  - constructor.
  - destruct H as (_ & _ & H16 & _ & Ht).
    constructor; [lia | exact (IH _ Ht)].
Qed.

Lemma total_size_nonneg (l : list blk) :
  Forall (fun x => 0 <= blk_size x) l -> 0 <= total_size l.
Proof.
  induction 1 as [|b l Hb _ IH]; simpl; lia.
Qed.

Lemma two_blocks_apart (l1 l2 l1' l2' : list blk) (b c : blk) :
  l1 ++ b :: l2 = l1' ++ c :: l2' ->
  blk_alloc b <> blk_alloc c ->
  Forall (fun x => 0 <= blk_size x) (l1 ++ b :: l2) ->
  total_size l1' + blk_size c <= total_size l1
  \/ total_size l1 + blk_size b <= total_size l1'.
Proof.
  revert l1'. induction l1 as [|x l1 IH]; intros [|x' l1'] E Hne Hpos.
  - simpl in E. injection E as -> _. congruence.
  - simpl in E. injection E as <- ->.
    right. simpl.
    inversion Hpos as [|? ? _ Hrest]; subst.
    apply Forall_app in Hrest. destruct Hrest as [Hrest _].
    apply total_size_nonneg in Hrest. lia.
  - simpl in E. injection E as -> <-.
    left. simpl.
    inversion Hpos as [|? ? _ Hrest]; subst.
    apply Forall_app in Hrest. destruct Hrest as [Hrest _].
    apply total_size_nonneg in Hrest. lia.
  - simpl in E. injection E as -> E.
    inversion Hpos as [|? ? _ Hrest]; subst.
    simpl. destruct (IH l1' E Hne Hrest); lia.
Qed.

(** *** Allocation beside a live block *)

Lemma GET_PLD_PTR_small (bp : Z) :
  0 <= bp -> bp + 8 < modulus -> GET_PLD_PTR bp = bp + 8.
Proof. intros H0 H1. unfold GET_PLD_PTR, PAYLOAD_OFFSET. apply wrap_small. lia. Qed.

(** [mm_malloc] of an in-range size on a well-formed heap either ends the
    process or returns the payload of a block that is allocated, has room
    for the request, and lies apart from any block [b] that was allocated
    before, whose bytes it leaves as they were. *)
Lemma mm_malloc_beside
      (fuel : nat) (st : state) (l1 l2 : list blk) (b : blk) (m : Z) :
  heap_ok st (l1 ++ b :: l2) -> blk_alloc b = true ->
  mem_brk st = heap_end st -> mem_max_addr st < modulus ->
  0 <= m <= SIZE_MAX - 15 -> (length (l1 ++ b :: l2) < fuel)%nat ->
  let bpb := heap_start st + total_size l1 in
  let asize := adjust_size m in
  (exists st1, mm_malloc fuel st m = Some (Exit 1 st1))
  \/ (exists nb st1,
        mm_malloc fuel st m = Some (Ret (nb + 8) st1)
        /\ 0 < nb /\ nb + asize < modulus
        /\ (nb + asize <= bpb \/ bpb + blk_size b <= nb)
        /\ GET_ALLOC st1 nb = 1 /\ asize <= GET_SIZE st1 nb
        /\ (forall a, bpb <= a < bpb + blk_size b -> mem st1 a = mem st a)).
Proof.
  intros Hok Hb Hbrk Hmax Hm Hfuel bpb asize.
  destruct (adjust_size_room m Hm) as (A8 & Am & A16 & Amax).
  fold asize in A8, Am, A16, Amax.
  change SIZE_MAX with (modulus - 1) in Amax.
  destruct (heap_ok_block st l1 l2 b Hok) as (Bpos & Ble & B16 & _).
  fold bpb in Bpos, Ble.
  pose proof Hok as (Hs & He & Ht).
  unfold mm_malloc. fold asize.
  destruct (first_fit_split asize (l1 ++ b :: l2))
    as [Hno | (l1' & c & l2' & E & Hno & Hc)].
  - (* no fit: the heap is extended *)
    rewrite (find_fit_no_fit st _ asize fuel Hok Hfuel Hno).
    cbn [NULL Z.eqb negb]. unfold extend_heap.
    destruct (extend_size_adjusted asize ltac:(lia) A8) as [_ Ex].
    rewrite Ex. unfold mem_sbrk. rewrite Hbrk.
    destruct (Z.ltb_spec (mem_max_addr st) (heap_end st + asize)) as [Hfull | Hroom].
    + left. eexists. reflexivity.
    + right. cbn [mem mem_brk mem_max_addr heap_start heap_end].
      assert (Hnn : (heap_end st =? NULL) = false) by (unfold NULL; lia).
      rewrite Hnn. set (st1 := mkState _ _ _ _ _).
      exists (heap_end st), (place st1 (heap_end st) asize).
      rewrite GET_PLD_PTR_small by lia. rewrite ?Hnn.
      split; [reflexivity|]. split; [lia|]. split; [lia|].
      split; [right; exact Ble|].
      destruct (place_header st1 (heap_end st) asize) as [P1 P2];
        try assumption; try lia.
      split; [exact P1|]. split; [exact P2|].
      intros a Ha.
      apply (place_mem_frame st1 (heap_end st) asize);
        try assumption; lia.
  - (* a free block fits *)
    rewrite E in Hok, Hfuel.
    rewrite (find_fit_at st l1' l2' c asize fuel Hok Hfuel Hno Hc).
    destruct (heap_ok_block st l1' l2' c Hok)
      as (Cpos & Cle & C16 & Csz & Cal & _).
    set (nb := heap_start st + total_size l1') in *.
    replace (nb =? NULL) with false by (unfold NULL; lia).
    cbn [negb].
    unfold fits in Hc. apply andb_prop in Hc. destruct Hc as [Cfree Cfit].
    assert (Hcs : asize <= blk_size c) by lia.
    right. exists nb, (place st nb asize).
    rewrite GET_PLD_PTR_small by lia.
    split; [reflexivity|]. split; [lia|]. split; [lia|].
    assert (Hapart : nb + blk_size c <= bpb \/ bpb + blk_size b <= nb).
    { destruct (two_blocks_apart l1 l2 l1' l2' b c E) as [H | H].
      - rewrite Hb. destruct (blk_alloc c); [discriminate | congruence].
      - exact (tiles_sizes _ _ _ _ Ht).
      - left. unfold nb, bpb. lia.
      - right. unfold nb, bpb. lia. }
    split; [lia|].
    destruct (place_header st nb asize) as [P1 P2];
      try assumption; try lia.
    split; [exact P1|]. split; [exact P2|].
    intros a Ha.
    destruct (Z.lt_ge_cases (blk_size c - asize) 16) as [Hwhole | Hsplit].
    + rewrite place_mem_whole by (rewrite Csz; lia).
      apply store_outside. lia.
    + apply (place_mem_frame st nb asize); try assumption; lia.
Qed.

(** *** Reallocation within the range of [size_t] *)



(** When [mem_sbrk] can supply an adjusted size, [extend_heap] returns the
    old break and moves [heap_end] up by exactly that many bytes; memory
    is not written. *)
Lemma extend_heap_grows (st : state) (asize : Z) :
  0 <= asize < modulus -> asize mod 8 = 0 ->
  0 < mem_brk st -> mem_brk st + asize <= mem_max_addr st ->
  0 <= heap_end st -> heap_end st + asize < modulus ->
  fst (extend_heap st (asize / WSIZE)) = mem_brk st
  /\ heap_end (snd (extend_heap st (asize / WSIZE))) = heap_end st + asize
  /\ mem_brk (snd (extend_heap st (asize / WSIZE))) = mem_brk st + asize
  /\ heap_start (snd (extend_heap st (asize / WSIZE))) = heap_start st
  /\ mem (snd (extend_heap st (asize / WSIZE))) = mem st.
Proof.
  intros Hr H8 Hbrk Hroom He0 He.
  destruct (extend_size_adjusted asize Hr H8) as [_ Ex].
  unfold extend_heap. rewrite Ex. unfold mem_sbrk.
  replace (mem_max_addr st <? mem_brk st + asize) with false by lia.
  replace (mem_brk st =? NULL) with false by (unfold NULL; lia).
  cbn [fst snd mem mem_brk heap_start heap_end].
  rewrite wrap_small by lia. repeat split; reflexivity.
Qed.

Lemma extend_heap_grows_witness :
  fst (extend_heap Session.s1 (32 / WSIZE)) = mem_brk Session.s1
  /\ heap_end (snd (extend_heap Session.s1 (32 / WSIZE)))
     = heap_end Session.s1 + 32
  /\ mem_brk (snd (extend_heap Session.s1 (32 / WSIZE)))
     = mem_brk Session.s1 + 32
  /\ heap_start (snd (extend_heap Session.s1 (32 / WSIZE)))
     = heap_start Session.s1
  /\ mem (snd (extend_heap Session.s1 (32 / WSIZE))) = mem Session.s1.
Proof.
  apply (extend_heap_grows Session.s1 32).
  - vm_compute. split; [intro; discriminate | reflexivity].
  - reflexivity.
  - vm_compute. reflexivity.
  - vm_compute. intro; discriminate.
  - vm_compute. intro; discriminate.
  - vm_compute. reflexivity.
Defined.


(** * Initialisation, sessions and edge cases *)

(** ** Initialisation *)

Lemma byte_of_zero (k : Z) : byte_of 0 k = 0.
Proof. unfold byte_of. rewrite Zdiv_0_l. reflexivity. Qed.

(** The first header-to-be after [mm_init]: its low half was zeroed by the
    8-byte store of the padding word, so its size field is a multiple of
    [2^32]. *)
Lemma load_after_padding (m : memory) (b : Z) :
  exists K, SIZE_OF (load (store m b 0) (b + 4)) = 2 ^ 32 * (K mod 2 ^ 32).
Proof.
  exists (m (b + 8) + m (b + 9) * 2 ^ 8 + m (b + 10) * 2 ^ 16
          + m (b + 11) * 2 ^ 24).
  set (K := m (b + 8) + _ + _ + _).
  assert (E : load (store m b 0) (b + 4) = 2 ^ 32 * K).
  { unfold load, store.
    repeat match goal with
    | |- context [ (b <=? ?x) && (?x <? b + 8) ] =>
        let c := fresh "c" in
        first
          [ replace ((b <=? x) && (x <? b + 8)) with true by lia
          | replace ((b <=? x) && (x <? b + 8)) with false by lia ]
    end.
    rewrite !byte_of_zero.
    replace (b + 4 + 4) with (b + 8) by lia.
    replace (b + 4 + 5) with (b + 9) by lia.
    replace (b + 4 + 6) with (b + 10) by lia.
    replace (b + 4 + 7) with (b + 11) by lia.
    unfold K. lia. }
  rewrite E, SIZE_OF_arith.
  replace (2 ^ 32 * K / 8) with (2 ^ 29 * K)
    by (change (2 ^ 32) with (8 * 2 ^ 29); rewrite <- Z.mul_assoc;
        rewrite (Z.mul_comm 8), Z.div_mul by lia; reflexivity).
  change (2 ^ 61) with (2 ^ 29 * 2 ^ 32).
  rewrite Z.mul_mod_distr_l by lia. lia.
Qed.

Lemma mm_init_session (st : state) :
  0 < mem_brk st ->
  mem_max_addr st - mem_brk st <= 2 ^ 32 - 12 ->
  mem_max_addr st + 16 <= modulus ->
  mem_brk st + WSIZE <= mem_max_addr st ->
  session_ok (snd (mm_init st)) [].
Proof.
  intros Hbrk Hcap Htop Hroom. unfold mm_init, mem_sbrk, WSIZE in *.
  change modulus with (2 ^ 64) in *.
  replace (mem_max_addr st <? mem_brk st + 4) with false by lia.
  replace (mem_brk st =? NULL) with false by (unfold NULL; lia).
  cbn [fst snd mem mem_brk mem_max_addr heap_start heap_end PUT set_mem].
  rewrite wrap_small by (change modulus with (2 ^ 64); lia).
  unfold session_ok, heap_ok, tail_ok, GET_SIZE, GET.
  cbn [mem mem_brk mem_max_addr heap_start heap_end tiles].
  change modulus with (2 ^ 64).
  repeat split; try lia.
  destruct (load_after_padding (mem st) (mem_brk st)) as [K ->].
  pose proof (Z.mod_pos_bound K (2 ^ 32) ltac:(lia)) as HK.
  destruct (Z.eq_dec (K mod 2 ^ 32) 0) as [-> | Hnz]; [left; reflexivity|].
  right. nia.
Qed.

(** [mm_init] returns -1 and changes nothing when [mem_sbrk] cannot give the
    padding word.  Otherwise it returns 0 and leaves an empty heap that
    starts and ends 4 bytes above the old break, which is the new break;
    it writes zero to the 8 bytes at the old break and to no other byte;
    and the heap is fit for a session, whatever bytes the arena held. *)
Theorem mm_init_empty_heap (st : state) :
  0 < mem_brk st ->
  mem_max_addr st - mem_brk st <= 2 ^ 32 - 12 ->
  mem_max_addr st + 16 <= modulus ->
  (mem_max_addr st < mem_brk st + WSIZE -> mm_init st = (-1, st))
  /\ (mem_brk st + WSIZE <= mem_max_addr st ->
      fst (mm_init st) = 0
      /\ heap_start (snd (mm_init st)) = mem_brk st + WSIZE
      /\ heap_end (snd (mm_init st)) = mem_brk st + WSIZE
      /\ mem_brk (snd (mm_init st)) = mem_brk st + WSIZE
      /\ GET (snd (mm_init st)) (mem_brk st) = 0
      /\ (forall a, a < mem_brk st \/ mem_brk st + 8 <= a ->
                    mem (snd (mm_init st)) a = mem st a)
      /\ session_ok (snd (mm_init st)) []).
Proof.
  intros Hbrk Hcap Htop.
  split; intros Hroom.
  - unfold mm_init, mem_sbrk.
    replace (mem_max_addr st <? mem_brk st + WSIZE) with true by lia.
    reflexivity.
  - pose proof (mm_init_session st Hbrk Hcap Htop Hroom) as Hses.
    revert Hses. unfold mm_init, mem_sbrk, WSIZE in *.
    change modulus with (2 ^ 64) in *.
    replace (mem_max_addr st <? mem_brk st + 4) with false by lia.
    replace (mem_brk st =? NULL) with false by (unfold NULL; lia).
    cbn [fst snd mem mem_brk mem_max_addr heap_start heap_end PUT set_mem].
    rewrite wrap_small by (change modulus with (2 ^ 64); lia).
    intros Hses.
    split; [reflexivity|]. split; [reflexivity|]. split; [reflexivity|].
    split; [reflexivity|].
    split; [apply load_store_same; change modulus with (2 ^ 64); lia|].
    split; [intros a Ha; apply store_outside; exact Ha | exact Hses].
Qed.

Lemma mm_init_empty_heap_witness :
  (mem_max_addr Stale.arena < mem_brk Stale.arena + WSIZE ->
   mm_init Stale.arena = (-1, Stale.arena))
  /\ (mem_brk Stale.arena + WSIZE <= mem_max_addr Stale.arena ->
      fst (mm_init Stale.arena) = 0
      /\ heap_start (snd (mm_init Stale.arena)) = mem_brk Stale.arena + WSIZE
      /\ heap_end (snd (mm_init Stale.arena)) = mem_brk Stale.arena + WSIZE
      /\ mem_brk (snd (mm_init Stale.arena)) = mem_brk Stale.arena + WSIZE
      /\ GET (snd (mm_init Stale.arena)) (mem_brk Stale.arena) = 0
      /\ (forall a, a < mem_brk Stale.arena \/ mem_brk Stale.arena + 8 <= a ->
                    mem (snd (mm_init Stale.arena)) a = mem Stale.arena a)
      /\ session_ok (snd (mm_init Stale.arena)) []).
Proof.
  apply (mm_init_empty_heap Stale.arena).
  - reflexivity.
  - vm_compute. intro; discriminate.
  - vm_compute. intro; discriminate.
Defined.

(** ** Sessions: the heap stays well formed *)

Lemma tiles_aligned (m : memory) (hend : Z) (l : list blk) :
  forall bp, tiles m hend bp l -> total_size l mod 8 = 0.
Proof.
  induction l as [|b l IH]; simpl; intros bp H.
  - reflexivity.
  - destruct H as (Hsz & _ & _ & _ & Ht).
    pose proof (proj2 (SIZE_OF_range (load m bp))) as H8.
    rewrite Hsz in H8. rewrite Zplus_mod, H8, (IH _ Ht). reflexivity.
Qed.

Lemma total_size_after_place (asize : Z) (c : blk) :
  total_size (blocks_after_place asize c) = blk_size c.
Proof.
  unfold blocks_after_place.
  destruct (16 <=? blk_size c - asize); simpl; lia.
Qed.

(** The fit case of [mm_malloc], on the block list. *)
Lemma place_blocks (st : state) (l1 l2 : list blk) (c : blk) (asize : Z) :
  heap_ok st (l1 ++ c :: l2) ->
  asize mod 8 = 0 -> 16 <= asize <= blk_size c ->
  heap_ok (place st (heap_start st + total_size l1) asize)
          (l1 ++ blocks_after_place asize c ++ l2)
  /\ GET (place st (heap_start st + total_size l1) asize) (heap_end st)
     = GET st (heap_end st).
Proof.
  intros (Hs & He & Ht) H8 Has.
  set (bp := heap_start st + total_size l1).
  apply tiles_app in Ht. destruct Ht as [Ht1 Ht2]. fold bp in Ht1, Ht2.
  pose proof (tiles_total _ _ _ _ Ht1) as [Hn1 _].
  simpl in Ht2. destruct Ht2 as (Hsz & Hal & H16 & Hle & Ht2).
  change (SIZE_OF (load (mem st) bp)) with (GET_SIZE st bp) in Hsz.
  pose proof (GET_SIZE_range st bp) as [Hr Hc8]. rewrite Hsz in Hr, Hc8.
  destruct (place_bounds st bp asize) as (Bs & Be & _).
  unfold heap_ok, blocks_after_place, GET. rewrite Bs, Be.
  destruct (Z.leb_spec 16 (blk_size c - asize)) as [Hsplit | Hwhole].
  - (* split *)
    rewrite (place_mem_split st bp asize) by (rewrite ?Hsz; lia || assumption).
    rewrite Hsz.
    set (m1 := store (mem st) bp (PACK asize (alloc_bit true))).
    assert (Hr8 : (blk_size c - asize) mod 8 = 0)
      by (rewrite Zminus_mod, Hc8, H8; reflexivity).
    destruct (header_stored (mem st) bp asize true ltac:(lia) H8) as [A1 A2].
    destruct (header_stored m1 (bp + asize) (blk_size c - asize) false
                ltac:(lia) Hr8) as [R1 R2].
    split; [repeat split; try assumption|].
    + replace (l1 ++ [mkBlk asize true; mkBlk (blk_size c - asize) false] ++ l2)
        with ((l1 ++ [mkBlk asize true])
                ++ mkBlk (blk_size c - asize) false :: l2)
        by (rewrite <- app_assoc; reflexivity).
      apply (tiles_store_block m1 (heap_end st) (heap_start st) (bp + asize));
        try assumption.
      * rewrite total_size_app. simpl. unfold bp. lia.
      * apply (tiles_store_block (mem st) (bp + asize) (heap_start st) bp);
          try assumption; try reflexivity; simpl; lia.
      * simpl. lia.
      * cbn [blk_size].
        replace (bp + asize + (blk_size c - asize)) with (bp + blk_size c)
          by lia.
        apply (tiles_agree (mem st)); [|exact Ht2].
        intros q Hq Hq'. apply load_store_other. lia.
    + rewrite load_store_other by lia. unfold m1.
      apply load_store_other. lia.
  - (* the whole block *)
    rewrite (place_mem_whole st bp asize) by (rewrite ?Hsz; lia).
    rewrite Hsz.
    destruct (header_stored (mem st) bp (blk_size c) true Hr Hc8) as [A1 A2].
    split; [repeat split; try assumption|].
    + apply (tiles_store_block (mem st) (heap_end st) (heap_start st) bp);
        try assumption; try reflexivity.
    + apply load_store_other. lia.
Qed.

Lemma place_mem_split_any (st : state) (bp asize : Z) :
  0 <= bp -> 8 <= asize -> asize mod 8 = 0 -> bp + asize < modulus ->
  asize + 16 <= modulus ->
  16 <= wrap (GET_SIZE st bp - asize) ->
  mem (place st bp asize)
  = store (store (mem st) bp (PACK asize (alloc_bit true)))
          (bp + asize)
          (PACK (wrap (GET_SIZE st bp - asize)) (alloc_bit false)).
Proof.
  intros Hbp Has H8 Hend Hbig Hsplit. unfold place.
  replace (16 <=? wrap (GET_SIZE st bp - asize)) with true by lia.
  rewrite place_next by (assumption || lia). reflexivity.
Qed.

(** What [place] will find at [heap_end] after an extension by [asize]. *)
Lemma tail_after_extension (st : state) (asize : Z) :
  tail_ok st -> 0 <= heap_end st -> mem_max_addr st + 16 <= modulus ->
  asize mod 8 = 0 -> 16 <= asize ->
  heap_end st + asize <= mem_max_addr st ->
  let G' := wrap (GET_SIZE st (heap_end st) - asize) in
  16 <= G' < modulus /\ G' mod 8 = 0
  /\ mem_max_addr st - (heap_end st + asize) + 16 <= G'.
Proof.
  intros Htail He Htop H8 H16 Hroom G'.
  pose proof (GET_SIZE_range st (heap_end st)) as [Hr HG8].
  assert (HG'8 : G' mod 8 = 0).
  { apply wrap_aligned. rewrite Zminus_mod, HG8, H8. reflexivity. }
  pose proof (wrap_range (GET_SIZE st (heap_end st) - asize)) as Hw.
  fold G' in Hw.
  destruct Htail as [Hz | Hbig].
  - assert (E : G' = modulus - asize).
    { unfold G', wrap. rewrite Hz.
      symmetry. apply Z.mod_unique with (q := -1); lia. }
    lia.
  - assert (E : G' = GET_SIZE st (heap_end st) - asize).
    { unfold G'. apply wrap_small. lia. }
    lia.
Qed.

(** The extension case of [mm_malloc], on the block list. *)
Lemma extend_place_blocks (st : state) (l : list blk) (asize : Z) :
  session_ok st l -> asize mod 8 = 0 -> 16 <= asize ->
  heap_end st + asize <= mem_max_addr st ->
  exists st1,
    extend_heap st (asize / WSIZE) = (heap_end st, st1)
    /\ session_ok (place st1 (heap_end st) asize) (l ++ [mkBlk asize true])
    /\ heap_end (place st1 (heap_end st) asize) = heap_end st + asize
    /\ heap_start (place st1 (heap_end st) asize) = heap_start st
    /\ mem_max_addr (place st1 (heap_end st) asize) = mem_max_addr st.
Proof.
  intros ((Hs & He & Ht) & Hbrk & Htop & Htail) H8 H16 Hroom.
  pose proof (tiles_total _ _ _ _ Ht) as [Hn Hsum].
  destruct (extend_size_adjusted asize ltac:(lia) H8) as [_ Ex].
  set (nb := heap_end st) in *.
  set (st1 := mkState (mem st) (mem_brk st + asize) (mem_max_addr st)
                      (heap_start st) (nb + asize)).
  exists st1.
  assert (Eext : extend_heap st (asize / WSIZE) = (nb, st1)).
  { unfold extend_heap. rewrite Ex. unfold mem_sbrk. rewrite Hbrk.
    replace (mem_max_addr st <? nb + asize) with false by lia.
    replace (nb =? NULL) with false by (unfold NULL; lia).
    cbn [mem mem_brk mem_max_addr heap_start heap_end].
    rewrite wrap_small by lia. rewrite <- Hbrk. reflexivity. }
  split; [exact Eext|].
  destruct (tail_after_extension st asize Htail ltac:(lia) Htop H8 H16 Hroom)
    as (HG & HG8 & Hslack).
  fold nb in HG, HG8, Hslack.
  set (G' := wrap (GET_SIZE st nb - asize)) in *.
  assert (Hm : mem (place st1 nb asize)
               = store (store (mem st) nb (PACK asize (alloc_bit true)))
                       (nb + asize) (PACK G' (alloc_bit false))).
  { apply (place_mem_split_any st1 nb asize); try assumption; try lia.
    exact (proj1 HG). }
  destruct (place_bounds st1 nb asize) as (Bs & Be & Bb & Bm).
  cbn [heap_start heap_end mem_brk mem_max_addr st1] in Bs, Be, Bb, Bm.
  destruct (header_stored (mem st) nb asize true ltac:(lia) H8) as [A1 A2].
  destruct (header_stored (store (mem st) nb (PACK asize (alloc_bit true)))
              (nb + asize) G' false ltac:(lia) HG8) as [R1 R2].
  split; [|repeat split; assumption].
  unfold session_ok, heap_ok, tail_ok, GET_SIZE, GET.
  rewrite Bs, Be, Bb, Bm, Hm.
  split; [split; [exact Hs | split; [lia|]] |].
  - apply (tiles_agree (store (mem st) nb (PACK asize (alloc_bit true)))).
    + intros q Hq Hq'. apply load_store_other. lia.
    + apply (tiles_store_block (mem st) (nb + asize) (heap_start st) nb);
        try assumption; try reflexivity; simpl; lia.
  - split; [lia|]. split; [exact Htop|].
    right. rewrite R1. lia.
Qed.

Lemma session_after_place (st : state) (l1 l2 : list blk) (c : blk) (asize : Z) :
  session_ok st (l1 ++ c :: l2) ->
  asize mod 8 = 0 -> 16 <= asize <= blk_size c ->
  session_ok (place st (heap_start st + total_size l1) asize)
             (l1 ++ blocks_after_place asize c ++ l2).
Proof.
  intros (Hok & Hbrk & Htop & Htail) H8 Has.
  destruct (place_blocks st l1 l2 c asize Hok H8 Has) as [Hok' Hword].
  destruct (place_bounds st (heap_start st + total_size l1) asize)
    as (Bs & Be & Bb & Bm).
  unfold session_ok, tail_ok, GET_SIZE. rewrite Be, Bb, Bm, Hword.
  split; [exact Hok'|]. split; [exact Hbrk|].
  split; [exact Htop | exact Htail].
Qed.

(** What [mm_malloc] does in a session, case by case. *)
Lemma mm_malloc_cases (fuel : nat) (st : state) (l : list blk) (m : Z) :
  session_ok st l -> 0 <= m <= SIZE_MAX - 15 -> (length l < fuel)%nat ->
  let asize := adjust_size m in
  (Forall (fun b => fits asize b = false) l
   /\ mem_max_addr st < heap_end st + asize
   /\ mm_malloc fuel st m = Some (Exit 1 st))
  \/ (exists l1 c l2,
        l = l1 ++ c :: l2
        /\ Forall (fun b => fits asize b = false) l1
        /\ fits asize c = true
        /\ mm_malloc fuel st m
           = Some (Ret (heap_start st + total_size l1 + 8)
                       (place st (heap_start st + total_size l1) asize))
        /\ session_ok (place st (heap_start st + total_size l1) asize)
                      (l1 ++ blocks_after_place asize c ++ l2))
  \/ (Forall (fun b => fits asize b = false) l
      /\ heap_end st + asize <= mem_max_addr st
      /\ exists st',
           mm_malloc fuel st m = Some (Ret (heap_end st + 8) st')
           /\ session_ok st' (l ++ [mkBlk asize true])
           /\ heap_end st' = heap_end st + asize
           /\ heap_start st' = heap_start st
           /\ mem_max_addr st' = mem_max_addr st).
Proof.
  intros Hses Hm Hfuel asize.
  destruct (adjust_size_room m Hm) as (A8 & Am & A16 & Amax).
  fold asize in A8, Am, A16, Amax.
  change SIZE_MAX with (modulus - 1) in Amax.
  pose proof Hses as (Hok & Hbrk & Htop & Htail).
  pose proof Hok as (Hs & He & Ht).
  pose proof (tiles_total _ _ _ _ Ht) as [Hn Hsum].
  unfold mm_malloc. fold asize.
  destruct (first_fit_split asize l) as [Hno | (l1 & c & l2 & -> & Hno & Hc)].
  - rewrite (find_fit_no_fit st l asize fuel Hok Hfuel Hno).
    cbn [NULL Z.eqb negb].
    destruct (Z.lt_ge_cases (mem_max_addr st) (heap_end st + asize))
      as [Hfull | Hroom].
    + left. split; [exact Hno|]. split; [exact Hfull|].
      unfold extend_heap.
      destruct (extend_size_adjusted asize ltac:(lia) A8) as [_ Ex].
      rewrite Ex. unfold mem_sbrk. rewrite Hbrk.
      replace (mem_max_addr st <? heap_end st + asize) with true by lia.
      reflexivity.
    + right. right. split; [exact Hno|]. split; [exact Hroom|].
      destruct (extend_place_blocks st l asize Hses A8 ltac:(lia) Hroom)
        as (st1 & Eext & Hses' & He' & Hs' & Hm').
      exists (place st1 (heap_end st) asize).
      rewrite Eext.
      replace (heap_end st =? NULL) with false by (unfold NULL; lia).
      rewrite GET_PLD_PTR_small by lia.
      split; [reflexivity|]. split; [exact Hses'|].
      split; [exact He'|]. split; [exact Hs' | exact Hm'].
  - right. left. exists l1, c, l2.
    rewrite (find_fit_at st l1 l2 c asize fuel Hok Hfuel Hno Hc).
    destruct (heap_ok_block st l1 l2 c Hok) as (Cpos & Cle & C16 & _).
    replace (heap_start st + total_size l1 =? NULL) with false
      by (unfold NULL; lia).
    cbn [negb]. rewrite GET_PLD_PTR_small by lia.
    pose proof Hc as Hc'.
    unfold fits in Hc'. apply andb_prop in Hc'. destruct Hc' as [_ Cfit].
    split; [reflexivity|]. split; [exact Hno|]. split; [exact Hc|].
    split; [reflexivity|].
    apply session_after_place; [exact Hses | exact A8 | lia].
Qed.

Lemma session_after_free (st : state) (l1 l2 : list blk) (b : blk) :
  session_ok st (l1 ++ b :: l2) ->
  session_ok (mm_free st (GET_PLD_PTR (heap_start st + total_size l1)))
             (l1 ++ blocks_after_free b l2).
Proof.
  intros (Hok & Hbrk & Htop & Htail).
  pose proof (mm_free_blocks st l1 l2 b Hok) as Hok'.
  destruct (heap_ok_block st l1 l2 b Hok) as (Bpos & Ble & B16 & _).
  destruct Hok as (_ & He & _).
  set (bpb := heap_start st + total_size l1) in *.
  destruct (mm_free_bounds st (GET_PLD_PTR bpb)) as (Bs & Be & Bb & Bm).
  assert (Hword : GET (mm_free st (GET_PLD_PTR bpb)) (heap_end st)
                  = GET st (heap_end st)).
  { unfold GET. apply load_ext. intros a Ha.
    apply mm_free_mem_outside. rewrite HDRP_payload by lia. lia. }
  unfold session_ok, tail_ok, GET_SIZE. rewrite Be, Bb, Bm, Hword.
  split; [exact Hok'|]. split; [exact Hbrk|].
  split; [exact Htop | exact Htail].
Qed.

Lemma find_fit_from_mono (st : state) (asize : Z) (fuel : nat) :
  forall bp r fuel',
    find_fit_from fuel st asize bp = Some r -> (fuel <= fuel')%nat ->
    find_fit_from fuel' st asize bp = Some r.
Proof.
  induction fuel as [|fuel IH]; intros bp r fuel' H Hle.
  - discriminate H.
  - destruct fuel' as [|fuel']; [lia|]. simpl in H |- *.
    destruct (bp =? heap_end st); [exact H|].
    destruct ((GET_ALLOC st bp =? 0) && (asize <=? GET_SIZE st bp));
      [exact H|].
    apply IH; [exact H | lia].
Qed.

Lemma mm_malloc_mono (st : state) (size : Z) (fuel fuel' : nat)
      (o : outcome Z) :
  mm_malloc fuel st size = Some o -> (fuel <= fuel')%nat ->
  mm_malloc fuel' st size = Some o.
Proof.
  unfold mm_malloc, find_fit. intros H Hle.
  destruct (find_fit_from fuel st (adjust_size size) (heap_start st))
    as [r|] eqn:E; [|discriminate H].
  rewrite (find_fit_from_mono st _ fuel _ r fuel' E Hle). exact H.
Qed.

Lemma mm_realloc_mono (st : state) (p size : Z) (fuel fuel' : nat)
      (o : outcome Z) :
  mm_realloc fuel st p size = Some o -> (fuel <= fuel')%nat ->
  mm_realloc fuel' st p size = Some o.
Proof.
  unfold mm_realloc. intros H Hle.
  destruct (mm_malloc fuel st size) as [o1|] eqn:E; [|discriminate H].
  rewrite (mm_malloc_mono st size fuel fuel' o1 E Hle). exact H.
Qed.

Lemma total_size_cons (b : blk) (l : list blk) :
  total_size (b :: l) = blk_size b + total_size l.
Proof. reflexivity. Qed.

Lemma two_blocks_split (l1 l2 l1' l2' : list blk) (b c : blk) :
  l1 ++ b :: l2 = l1' ++ c :: l2' -> b <> c ->
  (exists mid, l1 = l1' ++ c :: mid /\ l2' = mid ++ b :: l2)
  \/ (exists mid, l1' = l1 ++ b :: mid /\ l2 = mid ++ c :: l2').
Proof.
  revert l1'. induction l1 as [|x l1 IH]; intros [|x' l1'] E Hne.
  - simpl in E. injection E as -> _. congruence.
  - simpl in E. injection E as <- ->. right. exists l1'. split; reflexivity.
  - simpl in E. injection E as -> <-. left. exists l1. split; reflexivity.
  - simpl in E. injection E as -> E.
    destruct (IH l1' E Hne) as [(mid & -> & ->) | (mid & -> & ->)].
    + left. exists mid. split; reflexivity.
    + right. exists mid. split; reflexivity.
Qed.

Lemma blocks_after_place_head (asize : Z) (c : blk) :
  asize <= blk_size c ->
  exists x rest,
    blocks_after_place asize c = x :: rest
    /\ blk_alloc x = true /\ asize <= blk_size x.
Proof.
  intros H. unfold blocks_after_place.
  destruct (16 <=? blk_size c - asize); eexists; eexists;
    (split; [reflexivity|]); split; try reflexivity; simpl; lia.
Qed.

(** Writing into the payload of one block leaves the session as it is. *)
Lemma session_payload_write
      (st : state) (P S : list blk) (x : blk) (w : memory) :
  session_ok st (P ++ x :: S) ->
  (forall q, q < heap_start st + total_size P + 8
             \/ heap_start st + total_size P + blk_size x <= q ->
             w q = mem st q) ->
  session_ok (set_mem st w) (P ++ x :: S).
Proof.
  intros (Hok & Hbrk & Htop & Htail) Hw.
  destruct (heap_ok_block st P S x Hok) as (Xpos & Xle & X16 & _).
  destruct Hok as (Hs & He & Ht).
  set (a := heap_start st + total_size P) in *.
  assert (Hload : forall q, q + 8 <= a + 8 \/ a + blk_size x <= q ->
                            load w q = load (mem st) q).
  { intros q Hq. apply load_ext. intros z Hz. apply Hw. lia. }
  unfold session_ok, heap_ok, tail_ok, GET_SIZE, GET.
  cbn [mem mem_brk mem_max_addr heap_start heap_end set_mem].
  rewrite (Hload (heap_end st)) by lia.
  split; [split; [exact Hs | split; [exact He|]] |].
  - apply tiles_app in Ht. destruct Ht as [Ht1 Ht2]. fold a in Ht1, Ht2.
    apply tiles_app. fold a. split.
    + apply (tiles_agree (mem st)); [|exact Ht1].
      intros q Hq Hq'. apply Hload. lia.
    + simpl in Ht2 |- *. destruct Ht2 as (Hsz & Hal & _ & _ & Ht2).
      rewrite (Hload a) by lia.
      repeat split; try assumption.
      apply (tiles_agree (mem st)); [|exact Ht2].
      intros q Hq Hq'. apply Hload. lia.
  - split; [exact Hbrk|]. split; [exact Htop | exact Htail].
Qed.

(** The copy and the free that end [mm_realloc], once the new block [x]
    and the old block [b] are located in the heap. *)
Lemma realloc_tail (st1 : state) (P S L1 L2 : list blk) (x b : blk) (n p : Z) :
  session_ok st1 (P ++ x :: S) -> P ++ x :: S = L1 ++ b :: L2 ->
  n <= blk_size x - 8 ->
  p = GET_PLD_PTR (heap_start st1 + total_size L1) ->
  session_ok
    (mm_free (set_mem st1 (memcpy (mem st1)
                                  (heap_start st1 + total_size P + 8) p n))
             p)
    (L1 ++ blocks_after_free b L2).
Proof.
  intros Hses E Hn ->.
  set (st2 := set_mem st1 _).
  assert (Hses2 : session_ok st2 (P ++ x :: S)).
  { apply session_payload_write; [exact Hses|].
    intros q Hq. unfold memcpy.
    match goal with |- (if ?c then _ else _) = _ =>
      replace c with false by lia end.
    reflexivity. }
  rewrite E in Hses2.
  exact (session_after_free st2 L1 L2 b Hses2).
Qed.

Lemma session_after_realloc
      (fuel : nat) (st : state) (l1 l2 : list blk) (b : blk)
      (m p' : Z) (st' : state) :
  session_ok st (l1 ++ b :: l2) -> blk_alloc b = true ->
  0 <= m <= SIZE_MAX - 15 -> (length (l1 ++ b :: l2) < fuel)%nat ->
  mm_realloc fuel st (GET_PLD_PTR (heap_start st + total_size l1)) m
  = Some (Ret p' st') ->
  exists l', session_ok st' l'.
Proof.
  intros Hses Hb Hm Hfuel Hre.
  destruct (adjust_size_room m Hm) as (_ & Am & _).
  pose proof Hses as ((Hs & He & Ht0) & _).
  pose proof (tiles_total _ _ _ _ Ht0) as [Hn0 Hsum0].
  set (p := GET_PLD_PTR (heap_start st + total_size l1)) in *.
  unfold mm_realloc in Hre.
  destruct (mm_malloc_cases fuel st _ m Hses Hm Hfuel) as
    [(_ & _ & Emal)
    | [(l1' & c & l2' & E & _ & Hc & Emal & Hses1)
      | (_ & _ & st1 & Emal & Hses1 & _ & Hs1 & _)]];
    rewrite Emal in Hre.
  - discriminate Hre.
  - (* a free block was found *)
    set (asize := adjust_size m) in *.
    rewrite E in Hses.
    destruct Hses as (Hok & _).
    destruct (heap_ok_block st l1' l2' c Hok) as (Cpos & _).
    set (nb := heap_start st + total_size l1') in *.
    set (st1 := place st nb asize) in *.
    replace (nb + 8 =? NULL) with false in Hre by (unfold NULL; lia).
    injection Hre as _ <-.
    assert (Hs1 : heap_start st1 = heap_start st)
      by apply place_bounds.
    unfold fits in Hc. apply andb_prop in Hc. destruct Hc as [Cfree Cfit].
    destruct (blocks_after_place_head asize c ltac:(lia))
      as (x & rest & Epl & Xal & Xsz).
    rewrite Epl in Hses1.
    assert (Hne : b <> c).
    { intros ->. rewrite Hb in Cfree. discriminate Cfree. }
    assert (Hcopy : forall G, (if m <? G then m else G) <= blk_size x - 8).
    { intros G. destruct (Z.ltb_spec m G); lia. }
    assert (Hpl : total_size (x :: rest) = blk_size c).
    { rewrite <- Epl. apply total_size_after_place. }
    destruct (two_blocks_split l1 l2 l1' l2' b c E Hne)
      as [(mid & E1 & E2) | (mid & E1 & E2)].
    + exists ((l1' ++ (x :: rest) ++ mid) ++ blocks_after_free b l2).
      replace nb with (heap_start st1 + total_size l1')
        by (rewrite Hs1; reflexivity).
      apply (realloc_tail st1 l1' (rest ++ l2')
                          (l1' ++ (x :: rest) ++ mid) l2 x b).
      * exact Hses1.
      * rewrite E2. repeat (rewrite <- app_assoc; simpl). reflexivity.
      * apply Hcopy.
      * unfold p. rewrite Hs1, E1, !total_size_app. f_equal.
        rewrite (total_size_cons c mid), Hpl. lia.
    + exists (l1 ++ blocks_after_free b (mid ++ (x :: rest) ++ l2')).
      replace nb with (heap_start st1 + total_size l1')
        by (rewrite Hs1; reflexivity).
      apply (realloc_tail st1 l1' (rest ++ l2')
                          l1 (mid ++ (x :: rest) ++ l2') x b).
      * exact Hses1.
      * rewrite E1. repeat (rewrite <- app_assoc; simpl). reflexivity.
      * apply Hcopy.
      * unfold p. rewrite Hs1. reflexivity.
  - (* the heap was extended *)
    set (asize := adjust_size m) in *.
    replace (heap_end st + 8 =? NULL) with false in Hre
      by (unfold NULL; lia).
    injection Hre as _ <-.
    destruct Hses as ((_ & _ & Ht) & _).
    pose proof (tiles_total _ _ _ _ Ht) as [_ Hsum].
    exists (l1 ++ blocks_after_free b (l2 ++ [mkBlk asize true])).
    replace (heap_end st) with (heap_start st1 + total_size (l1 ++ b :: l2))
      by (rewrite Hs1; exact Hsum).
    apply (realloc_tail st1 (l1 ++ b :: l2) [] l1 (l2 ++ [mkBlk asize true])
                        (mkBlk asize true) b).
    + exact Hses1.
    + rewrite <- app_assoc. reflexivity.
    + cbn [blk_size]. destruct (Z.ltb_spec m (GET_SIZE st1 (HDRP p))); lia.
    + unfold p. rewrite Hs1. reflexivity.
Qed.


(** A state has one block list. *)
Lemma tiles_unique (m : memory) (hend : Z) (l : list blk) :
  forall bp l', tiles m hend bp l -> tiles m hend bp l' -> l = l'.
Proof.
  induction l as [|b l IH]; intros bp [|b' l'] H H'; simpl in H, H'.
  - reflexivity.
  - lia.
  - lia.
  - destruct H as (Hs & Ha & _ & _ & Ht).
    destruct H' as (Hs' & Ha' & _ & _ & Ht').
    assert (E : b = b').
    { destruct b as [sz al], b' as [sz' al']. simpl in *.
      f_equal; [congruence|].
      destruct al, al'; simpl in *; congruence. }
    subst b'. f_equal. exact (IH _ _ Ht Ht').
Qed.

Lemma session_blocks (st : state) (l l' : list blk) :
  session_ok st l -> heap_ok st l' -> session_ok st l'.
Proof.
  intros Hses (_ & _ & Ht').
  pose proof Hses as ((_ & _ & Ht) & _).
  rewrite <- (tiles_unique _ _ _ _ _ Ht Ht'). exact Hses.
Qed.

Lemma mm_init_returns_zero (st : state) :
  fst (mm_init st) = 0 -> mem_brk st + WSIZE <= mem_max_addr st.
Proof.
  unfold mm_init, mem_sbrk.
  destruct (Z.ltb_spec (mem_max_addr st) (mem_brk st + WSIZE)) as [H | H];
    [|intros _; exact H].
  cbn [NULL Z.eqb fst]. discriminate.
Qed.

Lemma reachable_session (st : state) :
  reachable st -> exists l, session_ok st l.
Proof.
  induction 1 as
    [ st0 Hbrk Hcap Htop Hret
    | st fuel size p st' _ [l IH] Hsize Hmal
    | st l1 l2 b _ [l IH] Hok Hb
    | st fuel l1 l2 b size p st' _ [l IH] Hok Hb Hsize Hre ].
  - exists []. apply mm_init_session; try assumption.
    apply mm_init_returns_zero, Hret.
  - apply (mm_malloc_mono st size fuel (fuel + S (length l))) in Hmal; [|lia].
    destruct (mm_malloc_cases (fuel + S (length l)) st l size IH Hsize
                ltac:(lia))
      as [(_ & _ & E)
         | [(l1 & c & l2 & _ & _ & _ & E & Hses)
           | (_ & _ & st1 & E & Hses & _)]];
      rewrite E in Hmal.
    + discriminate Hmal.
    + injection Hmal as _ <-. eexists. exact Hses.
    + injection Hmal as _ <-. eexists. exact Hses.
  - exists (l1 ++ blocks_after_free b l2).
    apply session_after_free. exact (session_blocks st l _ IH Hok).
  - pose proof (session_blocks st l _ IH Hok) as Hses.
    apply (mm_realloc_mono st _ size fuel
             (fuel + S (length (l1 ++ b :: l2)))) in Hre; [|lia].
    exact (session_after_realloc (fuel + S (length (l1 ++ b :: l2)))
             st l1 l2 b size p st' Hses Hb Hsize ltac:(lia) Hre).
Qed.

Lemma tiles_block_sizes (m : memory) (hend : Z) (l : list blk) :
  forall bp, tiles m hend bp l ->
             Forall (fun b => 16 <= blk_size b /\ blk_size b mod 8 = 0) l.
Proof.
  induction l as [|b l IH]; simpl; intros bp H.
  - constructor.
  - destruct H as (Hsz & _ & H16 & _ & Ht).
    constructor; [|exact (IH _ Ht)].
    split; [exact H16|]. rewrite <- Hsz. apply SIZE_OF_range.
Qed.

Lemma outcome_eta (o : option (outcome Z)) (dflt : state) :
  returned o = true -> o = Some (Ret (ptr_of o) (state_of o dflt)).
Proof.
  destruct o as [[p st | code st]|]; simpl; intros H;
    [reflexivity | discriminate H | discriminate H].
Qed.

(** Every state of a session has a well-formed heap: its blocks are at
    least 16 bytes, multiples of 8 bytes, they fill the heap from
    [heap_start] to [heap_end] without gaps, and [heap_end] is the break.
    This holds whatever bytes the arena held at the start, although
    [extend_heap] writes no header. *)
Theorem reachable_heap_well_formed (st : state) :
  reachable st ->
  exists l,
    heap_ok st l
    /\ Forall (fun b => 16 <= blk_size b /\ blk_size b mod 8 = 0) l
    /\ heap_end st = heap_start st + total_size l
    /\ mem_brk st = heap_end st
    /\ forall l', heap_ok st l' -> l' = l.
Proof.
  intros Hreach.
  destruct (reachable_session st Hreach) as [l (Hok & Hbrk & _)].
  exists l. pose proof Hok as (_ & _ & Ht).
  split; [exact Hok|].
  split; [exact (tiles_block_sizes _ _ _ _ Ht)|].
  split; [symmetry; apply (tiles_total _ _ _ _ Ht)|].
  split; [exact Hbrk|].
  intros l' (_ & _ & Ht'). exact (tiles_unique _ _ _ _ _ Ht' Ht).
Qed.

Lemma reachable_heap_well_formed_witness :
  exists l,
    heap_ok Stale.s1 l
    /\ Forall (fun b => 16 <= blk_size b /\ blk_size b mod 8 = 0) l
    /\ heap_end Stale.s1 = heap_start Stale.s1 + total_size l
    /\ mem_brk Stale.s1 = heap_end Stale.s1
    /\ forall l', heap_ok Stale.s1 l' -> l' = l.
Proof.
  apply (reachable_heap_well_formed Stale.s1).
  apply (reach_malloc Stale.s0 8 1 (ptr_of Stale.r1) Stale.s1).
  - apply (reach_init Stale.arena).
    + reflexivity.
    + vm_compute. intro; discriminate.
    + vm_compute. intro; discriminate.
    + vm_compute. reflexivity.
  - vm_compute. split; intro; discriminate.
  - apply outcome_eta. vm_compute. reflexivity.
Defined.

Lemma session_prefix_aligned (st : state) (l1 l2 : list blk) :
  session_ok st (l1 ++ l2) -> total_size l1 mod 8 = 0.
Proof.
  intros ((_ & _ & Ht) & _). apply tiles_app in Ht.
  exact (tiles_aligned _ _ _ _ (proj1 Ht)).
Qed.

(** In a session, [mm_malloc] of at most [SIZE_MAX - 15] bytes ends the
    process only when no free block fits and the arena cannot grow by the
    adjusted size, the heap being untouched.  Otherwise it returns the
    payload pointer of an allocated block of at least [size + 8] bytes in a
    heap that is again fit for the session; the pointer is [heap_start + 8]
    plus a multiple of 8; and [heap_end] moves only when no free block
    fitted, by the adjusted size exactly. *)
Theorem mm_malloc_in_session
        (fuel : nat) (st : state) (l : list blk) (size : Z) :
  session_ok st l -> 0 <= size <= SIZE_MAX - 15 -> (length l < fuel)%nat ->
  (mm_malloc fuel st size = Some (Exit 1 st)
   /\ Forall (fun b => fits (adjust_size size) b = false) l
   /\ mem_max_addr st < heap_end st + adjust_size size)
  \/ (exists st' l1 x l2,
        mm_malloc fuel st size
        = Some (Ret (heap_start st + total_size l1 + 8) st')
        /\ session_ok st' (l1 ++ x :: l2)
        /\ blk_alloc x = true /\ size + 8 <= blk_size x
        /\ total_size l1 mod 8 = 0
        /\ heap_start st' = heap_start st
        /\ (heap_end st' = heap_end st
            \/ (Forall (fun b => fits (adjust_size size) b = false) l
                /\ heap_end st' = heap_end st + adjust_size size))).
Proof.
  intros Hses Hsize Hfuel.
  destruct (adjust_size_room size Hsize) as (_ & Am & _).
  destruct (mm_malloc_cases fuel st l size Hses Hsize Hfuel)
    as [(Hno & Hfull & E)
       | [(l1 & c & l2 & -> & Hno & Hc & E & Hses')
         | (Hno & Hroom & st' & E & Hses' & He' & Hs' & _)]].
  - left. repeat split; assumption.
  - right.
    unfold fits in Hc. apply andb_prop in Hc. destruct Hc as [_ Cfit].
    destruct (blocks_after_place_head (adjust_size size) c ltac:(lia))
      as (x & rest & Epl & Xal & Xsz).
    rewrite Epl in Hses'.
    destruct (place_bounds st (heap_start st + total_size l1)
                           (adjust_size size)) as (Bs & Be & _).
    exists (place st (heap_start st + total_size l1) (adjust_size size)),
           l1, x, (rest ++ l2).
    split; [exact E|]. split; [exact Hses'|]. split; [exact Xal|].
    split; [lia|].
    split; [exact (session_prefix_aligned _ _ _ Hses')|].
    split; [exact Bs | left; exact Be].
  - right.
    pose proof Hses as ((_ & _ & Ht) & _).
    pose proof (tiles_total _ _ _ _ Ht) as [_ Hsum].
    exists st', l, (mkBlk (adjust_size size) true), [].
    rewrite Hsum.
    split; [exact E|]. split; [exact Hses'|]. split; [reflexivity|].
    split; [cbn [blk_size]; lia|].
    split; [exact (session_prefix_aligned _ _ _ Hses')|].
    split; [exact Hs' | right; split; assumption].
Qed.

Lemma mm_malloc_in_session_witness :
  (mm_malloc 8 Stale.s1 24 = Some (Exit 1 Stale.s1)
   /\ Forall (fun b => fits (adjust_size 24) b = false) [mkBlk 16 true]
   /\ mem_max_addr Stale.s1 < heap_end Stale.s1 + adjust_size 24)
  \/ (exists st' l1 x l2,
        mm_malloc 8 Stale.s1 24
        = Some (Ret (heap_start Stale.s1 + total_size l1 + 8) st')
        /\ session_ok st' (l1 ++ x :: l2)
        /\ blk_alloc x = true /\ 24 + 8 <= blk_size x
        /\ total_size l1 mod 8 = 0
        /\ heap_start st' = heap_start Stale.s1
        /\ (heap_end st' = heap_end Stale.s1
            \/ (Forall (fun b => fits (adjust_size 24) b = false)
                       [mkBlk 16 true]
                /\ heap_end st' = heap_end Stale.s1 + adjust_size 24))).
Proof.
  apply (mm_malloc_in_session 8 Stale.s1 [mkBlk 16 true] 24).
  - unfold session_ok, tail_ok. by_evaluation.
    right. intro; discriminate.
  - vm_compute. split; intro; discriminate.
  - simpl. lia.
Defined.

(** ** Allocate, free, allocate again *)

Lemma blocks_after_free_head (b : blk) (L : list blk) :
  Forall (fun x => 0 <= blk_size x) L ->
  exists y rest,
    blocks_after_free b L = y :: rest
    /\ blk_alloc y = false /\ blk_size b <= blk_size y
    /\ (length rest <= length L)%nat.
Proof.
  intros Hpos. unfold blocks_after_free.
  destruct L as [|n L]; [|destruct (blk_alloc n)];
    eexists; eexists; (split; [reflexivity|]);
    (split; [reflexivity|]); simpl; split; try lia.
  inversion Hpos; subst. lia.
Qed.

Lemma blocks_after_place_length (asize : Z) (c : blk) :
  (length (blocks_after_place asize c) <= 2)%nat.
Proof.
  unfold blocks_after_place.
  destruct (16 <=? blk_size c - asize); simpl; lia.
Qed.

(** The second [mm_malloc], after the block was freed: the scan passes the
    blocks before it, none of which fits, and stops at it. *)
Lemma mm_malloc_again
      (fuel : nat) (st2 : state) (l1 rest : list blk) (y : blk) (size : Z) :
  heap_ok st2 (l1 ++ y :: rest) ->
  (length (l1 ++ y :: rest) < fuel)%nat ->
  Forall (fun b => fits (adjust_size size) b = false) l1 ->
  blk_alloc y = false -> adjust_size size <= blk_size y ->
  mm_malloc fuel st2 size
  = Some (Ret (heap_start st2 + total_size l1 + 8)
              (place st2 (heap_start st2 + total_size l1)
                     (adjust_size size))).
Proof.
  intros Hok Hfuel Hno Hfree Hfit.
  assert (Hy : fits (adjust_size size) y = true).
  { unfold fits. rewrite Hfree. simpl. lia. }
  destruct (heap_ok_block st2 l1 rest y Hok) as (Ypos & Yle & Y16 & _).
  pose proof Hok as (_ & He & _).
  unfold mm_malloc.
  rewrite (find_fit_at st2 l1 rest y _ fuel Hok Hfuel Hno Hy).
  replace (heap_start st2 + total_size l1 =? NULL) with false
    by (unfold NULL; lia).
  cbn [negb]. rewrite GET_PLD_PTR_small by lia. reflexivity.
Qed.

(** In a session, when [mm_malloc] has returned a pointer and that pointer
    is freed at once, the same request again returns the same pointer and
    does not extend the heap: the freed block is the first that fits. *)
Theorem malloc_free_malloc_same_pointer
        (fuel : nat) (st : state) (l : list blk) (size p : Z) (st1 : state) :
  session_ok st l -> 0 <= size <= SIZE_MAX - 15 ->
  (S (length l) < fuel)%nat ->
  mm_malloc fuel st size = Some (Ret p st1) ->
  exists st3,
    mm_malloc fuel (mm_free st1 p) size = Some (Ret p st3)
    /\ heap_end (mm_free st1 p) = heap_end st1
    /\ heap_end st3 = heap_end st1.
Proof.
  intros Hses Hsize Hfuel Hmal.
  destruct (adjust_size_room size Hsize) as (_ & Am & A16 & _).
  pose proof Hses as ((Hs & He & Ht) & _ & Htop & _).
  pose proof (tiles_total _ _ _ _ Ht) as [Hn Hsum].
  destruct (mm_malloc_cases fuel st l size Hses Hsize ltac:(lia))
    as [(_ & _ & E)
       | [(l1 & c & l2 & El & Hno & Hc & E & Hses')
         | (Hno & Hroom & st' & E & Hses' & He' & Hs' & _)]];
    rewrite E in Hmal.
  - discriminate Hmal.
  - (* the block came from a free block *)
    injection Hmal as <- <-.
    set (asize := adjust_size size) in *.
    set (nb := heap_start st + total_size l1) in *.
    set (st1 := place st nb asize) in *.
    unfold fits in Hc. apply andb_prop in Hc. destruct Hc as [_ Cfit].
    destruct (blocks_after_place_head asize c ltac:(lia))
      as (x & rest & Epl & Xal & Xsz).
    pose proof (blocks_after_place_length asize c) as Hlen.
    rewrite Epl in Hses', Hlen. simpl in Hlen.
    assert (Bs : heap_start st1 = heap_start st) by apply place_bounds.
    pose proof Hses' as ((_ & He1 & Ht1) & _).
    destruct (heap_ok_block st1 l1 (rest ++ l2) x (proj1 Hses'))
      as (Xpos & Xle & X16 & _).
    rewrite Bs in Xpos, Xle. fold nb in Xpos, Xle.
    assert (Ep : nb + 8 = GET_PLD_PTR (heap_start st1 + total_size l1)).
    { rewrite Bs. fold nb. symmetry. apply GET_PLD_PTR_small; lia. }
    pose proof (session_after_free st1 l1 (rest ++ l2) x Hses') as Hses2.
    rewrite <- Ep in Hses2.
    set (st2 := mm_free st1 (nb + 8)) in *.
    destruct (mm_free_bounds st1 (nb + 8)) as (Fs & Fe & _).
    fold st2 in Fs, Fe.
    assert (Hpos : Forall (fun z => 0 <= blk_size z) (rest ++ l2)).
    { apply tiles_sizes in Ht1. apply Forall_app in Ht1.
      destruct Ht1 as [_ Hx]. inversion Hx; subst. assumption. }
    destruct (blocks_after_free_head x (rest ++ l2) Hpos)
      as (y & rest' & Ey & Yfree & Ysz & Ylen).
    rewrite Ey in Hses2.
    assert (Hlen2 : (length (l1 ++ y :: rest') < fuel)%nat).
    { rewrite El in Hfuel. rewrite !length_app in Hfuel, Ylen |- *.
      simpl in Hfuel |- *. lia. }
    exists (place st2 nb asize).
    replace nb with (heap_start st2 + total_size l1) at 1 2
      by (rewrite Fs, Bs; reflexivity).
    split.
    + apply (mm_malloc_again fuel st2 l1 rest' y size);
        [exact (proj1 Hses2) | exact Hlen2 | exact Hno | exact Yfree | lia].
    + split; [exact Fe|].
      rewrite <- Fe. apply place_bounds.
  - (* the block came from an extension *)
    injection Hmal as <- <-.
    set (asize := adjust_size size) in *.
    assert (Ep : heap_end st + 8
                 = GET_PLD_PTR (heap_start st' + total_size l)).
    { rewrite Hs', Hsum. symmetry. apply GET_PLD_PTR_small; lia. }
    pose proof (session_after_free st' l [] (mkBlk asize true) Hses')
      as Hses2.
    rewrite <- Ep in Hses2. cbn [blocks_after_free blk_size] in Hses2.
    set (st2 := mm_free st' (heap_end st + 8)) in *.
    destruct (mm_free_bounds st' (heap_end st + 8)) as (Fs & Fe & _).
    fold st2 in Fs, Fe.
    exists (place st2 (heap_end st) asize).
    replace (heap_end st) with (heap_start st2 + total_size l) at 1 2
      by (rewrite Fs, Hs'; exact Hsum).
    split.
    + apply (mm_malloc_again fuel st2 l [] (mkBlk asize false) size);
        [exact (proj1 Hses2) | | exact Hno | reflexivity | cbn [blk_size]; lia].
      rewrite length_app. simpl. lia.
    + split; [exact Fe|].
      rewrite <- Fe. apply place_bounds.
Qed.

Lemma malloc_free_malloc_same_pointer_witness :
  exists st3,
    mm_malloc 8 (mm_free Stale.s2 (ptr_of Stale.r2)) 24
    = Some (Ret (ptr_of Stale.r2) st3)
    /\ heap_end (mm_free Stale.s2 (ptr_of Stale.r2)) = heap_end Stale.s2
    /\ heap_end st3 = heap_end Stale.s2.
Proof.
  apply (malloc_free_malloc_same_pointer 8 Stale.s1 [mkBlk 16 true] 24
           (ptr_of Stale.r2) Stale.s2).
  - unfold session_ok, tail_ok. by_evaluation.
    right. intro; discriminate.
  - vm_compute. split; intro; discriminate.
  - simpl. lia.
  - apply outcome_eta. vm_compute. reflexivity.
Defined.

(** ** The scan on any heap *)

Lemma find_fit_from_sound (st : state) (asize : Z) (fuel : nat) :
  forall bp r,
    find_fit_from fuel st asize bp = Some r ->
    r = NULL
    \/ (r <> heap_end st /\ GET_ALLOC st r = 0 /\ asize <= GET_SIZE st r).
Proof.
  induction fuel as [|fuel IH]; intros bp r H; simpl in H.
  - discriminate H.
  - destruct (Z.eqb_spec bp (heap_end st)) as [_ | Hne].
    + injection H as <-. left. reflexivity.
    + destruct ((GET_ALLOC st bp =? 0) && (asize <=? GET_SIZE st bp)) eqn:E.
      * injection H as <-. right. apply andb_prop in E. lia.
      * exact (IH _ _ H).
Qed.

(** Whatever the heap holds, well formed or not, a block that [find_fit]
    returns is not [heap_end], is free and has room for [asize]; and a
    non-null pointer that [mm_malloc] returns without extending the heap is
    the payload of such a block. *)
Theorem find_fit_sound (fuel : nat) (st : state) (asize r : Z) :
  find_fit fuel st asize = Some r ->
  r = NULL
  \/ (r <> heap_end st /\ GET_ALLOC st r = 0 /\ asize <= GET_SIZE st r
      /\ forall size, adjust_size size = asize ->
           mm_malloc fuel st size
           = Some (Ret (GET_PLD_PTR r) (place st r asize))).
Proof.
  intros H.
  destruct (Z.eq_dec r NULL) as [Hnull | Hnn]; [left; exact Hnull | right].
  destruct (find_fit_from_sound st asize fuel _ _ H)
    as [Hnull | (Hne & Hal & Hsz)]; [contradiction|].
  repeat split; try assumption.
  intros size <-. unfold mm_malloc. rewrite H.
  replace (r =? NULL) with false by lia. reflexivity.
Qed.

Lemma find_fit_sound_witness :
  4100 = NULL
  \/ (4100 <> heap_end Session.s5 /\ GET_ALLOC Session.s5 4100 = 0
      /\ 16 <= GET_SIZE Session.s5 4100
      /\ forall size, adjust_size size = 16 ->
           mm_malloc 4 Session.s5 size
           = Some (Ret (GET_PLD_PTR 4100) (place Session.s5 4100 16))).
Proof.
  apply (find_fit_sound 4 Session.s5 16 4100).
  vm_compute. reflexivity.
Defined.

(** A header whose size field is 0 stops the scan from advancing: when the
    block at [heap_start] has size 0 and is not taken, [find_fit] returns
    within no number of iterations, and neither does [mm_malloc]. *)
Theorem find_fit_spins_on_empty_block (st : state) (asize : Z) :
  heap_start st <> heap_end st ->
  0 <= heap_start st < modulus ->
  GET_SIZE st (heap_start st) = 0 ->
  0 < asize ->
  forall fuel,
    find_fit fuel st asize = None
    /\ forall size, adjust_size size = asize ->
                    mm_malloc fuel st size = None.
Proof.
  intros Hne Hr Hz Hpos fuel.
  assert (H : find_fit fuel st asize = None).
  { unfold find_fit. induction fuel as [|fuel IH]; [reflexivity|].
    simpl.
    replace (heap_start st =? heap_end st) with false by lia.
    rewrite Hz.
    replace (asize <=? 0) with false by lia. rewrite andb_false_r.
    unfold NEXT_BLKP. rewrite Hz, Z.add_0_r, wrap_small by exact Hr.
    exact IH. }
  split; [exact H|].
  intros size <-. unfold mm_malloc. rewrite H. reflexivity.
Qed.

Lemma find_fit_spins_on_empty_block_witness :
  find_fit 1000 (snd (extend_heap Session.s0 4)) 16 = None
  /\ forall size, adjust_size size = 16 ->
                  mm_malloc 1000 (snd (extend_heap Session.s0 4)) size = None.
Proof.
  apply (find_fit_spins_on_empty_block (snd (extend_heap Session.s0 4)) 16).
  - vm_compute. intro; discriminate.
  - vm_compute. split; [intro; discriminate | reflexivity].
  - vm_compute. reflexivity.
  - reflexivity.
Defined.

(** ** More on freeing *)


(** Two neighbouring live blocks, followed by a live block or by nothing:
    freed from the higher address down they end as one free block of the
    combined size; freed from the lower address up they end as two free
    blocks, because [coalesce] only looks forward. *)
Theorem mm_free_order_matters (st : state) (l1 l2 : list blk) (a b : blk) :
  heap_ok st (l1 ++ a :: b :: l2) ->
  blk_alloc a = true -> blk_alloc b = true ->
  match l2 with [] => True | n :: _ => blk_alloc n = true end ->
  let pa := GET_PLD_PTR (heap_start st + total_size l1) in
  let pb := GET_PLD_PTR (heap_start st + total_size l1 + blk_size a) in
  heap_ok (mm_free (mm_free st pb) pa)
          (l1 ++ mkBlk (blk_size a + blk_size b) false :: l2)
  /\ heap_ok (mm_free (mm_free st pa) pb)
             (l1 ++ mkBlk (blk_size a) false :: mkBlk (blk_size b) false
                 :: l2).
Proof.
  intros Hok Ha Hb Hl2 pa pb.
  assert (Eb : blocks_after_free b l2 = mkBlk (blk_size b) false :: l2).
  { destruct l2 as [|n l2]; [reflexivity|].
    unfold blocks_after_free. rewrite Hl2. reflexivity. }
  assert (Etot : total_size (l1 ++ [a]) = total_size l1 + blk_size a)
    by (rewrite total_size_app; simpl; lia).
  split.
  - (* the higher block first *)
    assert (Hok0 : heap_ok st ((l1 ++ [a]) ++ b :: l2))
      by (rewrite <- app_assoc; exact Hok).
    pose proof (mm_free_blocks st (l1 ++ [a]) l2 b Hok0) as H1.
    rewrite Etot, Z.add_assoc, Eb, <- app_assoc in H1. fold pb in H1.
    simpl in H1.
    pose proof (mm_free_blocks (mm_free st pb) l1 _ a H1) as H2.
    rewrite (proj1 (mm_free_bounds st pb)) in H2. fold pa in H2.
    exact H2.
  - (* the lower block first *)
    pose proof (mm_free_blocks st l1 (b :: l2) a Hok) as H1.
    fold pa in H1. cbn [blocks_after_free] in H1. rewrite Hb in H1.
    assert (H1' : heap_ok (mm_free st pa)
                    ((l1 ++ [mkBlk (blk_size a) false]) ++ b :: l2))
      by (rewrite <- app_assoc; exact H1).
    pose proof (mm_free_blocks (mm_free st pa) _ l2 b H1') as H2.
    rewrite (proj1 (mm_free_bounds st pa)) in H2.
    rewrite total_size_app in H2. cbn [total_size fold_right blk_size] in H2.
    rewrite Z.add_0_r, Z.add_assoc, Eb, <- app_assoc in H2. fold pb in H2.
    exact H2.
Qed.

Lemma mm_free_order_matters_witness :
  let st := InOrder.s2 in
  let pa := GET_PLD_PTR (heap_start st + total_size []) in
  let pb := GET_PLD_PTR (heap_start st + total_size [] + 16) in
  heap_ok (mm_free (mm_free st pb) pa) ([] ++ mkBlk (16 + 16) false :: [])
  /\ heap_ok (mm_free (mm_free st pa) pb)
             ([] ++ mkBlk 16 false :: mkBlk 16 false :: []).
Proof.
  apply (mm_free_order_matters InOrder.s2 [] [] (mkBlk 16 true) (mkBlk 16 true)).
  - by_evaluation.
  - reflexivity.
  - reflexivity.
  - exact I.
Defined.

(** Freeing the same pointer a second time changes no block, provided no
    two neighbours are both free among the blocks after it: the flag is
    already clear and there is nothing left to merge. *)
Theorem mm_free_twice (st : state) (l1 l2 : list blk) (b : blk) :
  heap_ok st (l1 ++ b :: l2) -> adjacent_free l2 = false ->
  let p := GET_PLD_PTR (heap_start st + total_size l1) in
  heap_ok (mm_free st p) (l1 ++ blocks_after_free b l2)
  /\ heap_ok (mm_free (mm_free st p) p) (l1 ++ blocks_after_free b l2).
Proof.
  intros Hok Hadj p.
  pose proof (mm_free_blocks st l1 l2 b Hok) as H1. fold p in H1.
  split; [exact H1|].
  assert (E : exists y rest,
             blocks_after_free b l2 = y :: rest
             /\ blocks_after_free y rest = y :: rest).
  { destruct l2 as [|n l2'].
    - exists (mkBlk (blk_size b) false), []. split; reflexivity.
    - destruct (blk_alloc n) eqn:En.
      + exists (mkBlk (blk_size b) false), (n :: l2').
        cbn [blocks_after_free]. rewrite En. split; reflexivity.
      + exists (mkBlk (blk_size b + blk_size n) false), l2'.
        cbn [blocks_after_free]. rewrite En. split; [reflexivity|].
        destruct l2' as [|c l2'']; [reflexivity|].
        rewrite adjacent_free_eq, En in Hadj.
        apply orb_false_elim in Hadj. destruct Hadj as [Hc _].
        cbn [negb andb] in Hc.
        cbn [blocks_after_free blk_size].
        destruct (blk_alloc c); [reflexivity | discriminate Hc]. }
  destruct E as (y & rest & Ey & Eagain).
  rewrite Ey in H1 |- *.
  pose proof (mm_free_blocks (mm_free st p) l1 rest y H1) as H2.
  rewrite (proj1 (mm_free_bounds st p)), Eagain in H2. exact H2.
Qed.

Lemma mm_free_twice_witness :
  let p := GET_PLD_PTR (heap_start Session.s3 + total_size [mkBlk 16 true]) in
  heap_ok (mm_free Session.s3 p)
          ([mkBlk 16 true] ++ blocks_after_free (mkBlk 32 true) [mkBlk 16 true])
  /\ heap_ok (mm_free (mm_free Session.s3 p) p)
             ([mkBlk 16 true]
                ++ blocks_after_free (mkBlk 32 true) [mkBlk 16 true]).
Proof.
  apply (mm_free_twice Session.s3 [mkBlk 16 true] [mkBlk 16 true]
           (mkBlk 32 true)).
  - by_evaluation.
  - reflexivity.
Defined.

(** ** More on extending the heap *)

(** For any word count below [2^61], [extend_heap] asks for the count
    rounded up to an even number of words, a multiple of 8 bytes.  When
    [mem_sbrk] cannot give that much it returns [NULL] and changes nothing;
    otherwise it returns the old break and moves the break and [heap_end]
    up by that amount, so that they stay equal. *)
Theorem extend_heap_rounds_up (st : state) (words : Z) :
  0 <= words < 2 ^ 61 ->
  0 < mem_brk st -> mem_brk st = heap_end st -> mem_max_addr st < modulus ->
  extend_size words mod 8 = 0
  /\ 4 * words <= extend_size words <= 4 * words + 4
  /\ (mem_max_addr st < mem_brk st + extend_size words ->
      extend_heap st words = (NULL, st))
  /\ (mem_brk st + extend_size words <= mem_max_addr st ->
      fst (extend_heap st words) = mem_brk st
      /\ heap_end (snd (extend_heap st words))
         = heap_end st + extend_size words
      /\ mem_brk (snd (extend_heap st words))
         = heap_end (snd (extend_heap st words))).
Proof.
  intros Hw Hbrk Heq Hmax.
  assert (Hsz : extend_size words mod 8 = 0
                /\ 4 * words <= extend_size words <= 4 * words + 4).
  { unfold extend_size, WSIZE. change modulus with (2 ^ 64) in *.
    destruct (Z.eqb_spec (words mod 2) 1) as [Hodd | Heven].
    - rewrite (wrap_small (words + 1))
        by (change modulus with (2 ^ 64); lia).
      rewrite wrap_small by (change modulus with (2 ^ 64); lia).
      split; [Z.div_mod_to_equations; lia | lia].
    - rewrite wrap_small by (change modulus with (2 ^ 64); lia).
      pose proof (Z.mod_pos_bound words 2 ltac:(lia)).
      split; [Z.div_mod_to_equations; lia | lia]. }
  destruct Hsz as [H8 Hrange].
  split; [exact H8|]. split; [exact Hrange|].
  unfold extend_heap, mem_sbrk.
  split; intros Hcase.
  - replace (mem_max_addr st <? mem_brk st + extend_size words) with true
      by lia.
    reflexivity.
  - replace (mem_max_addr st <? mem_brk st + extend_size words) with false
      by lia.
    replace (mem_brk st =? NULL) with false by (unfold NULL; lia).
    cbn [fst snd mem mem_brk mem_max_addr heap_start heap_end].
    rewrite wrap_small by lia.
    repeat split; lia.
Qed.

Lemma extend_heap_rounds_up_witness :
  extend_size 5 mod 8 = 0
  /\ 4 * 5 <= extend_size 5 <= 4 * 5 + 4
  /\ (mem_max_addr Session.s1 < mem_brk Session.s1 + extend_size 5 ->
      extend_heap Session.s1 5 = (NULL, Session.s1))
  /\ (mem_brk Session.s1 + extend_size 5 <= mem_max_addr Session.s1 ->
      fst (extend_heap Session.s1 5) = mem_brk Session.s1
      /\ heap_end (snd (extend_heap Session.s1 5))
         = heap_end Session.s1 + extend_size 5
      /\ mem_brk (snd (extend_heap Session.s1 5))
         = heap_end (snd (extend_heap Session.s1 5))).
Proof.
  apply (extend_heap_rounds_up Session.s1 5).
  - vm_compute. split; [intro; discriminate | reflexivity].
  - vm_compute. reflexivity.
  - vm_compute. reflexivity.
  - vm_compute. reflexivity.
Defined.

(** ** Live blocks and new blocks *)

(** A block that [mm_malloc] hands out never overlaps a block that is
    already allocated, and no byte of such a block, header or payload, is
    changed by the call.  The heap need only be well formed and end at the
    break; the word beyond [heap_end] may be anything. *)
Theorem mm_malloc_spares_live_blocks
        (fuel : nat) (st : state) (l1 l2 : list blk) (b : blk)
        (size p : Z) (st1 : state) :
  heap_ok st (l1 ++ b :: l2) -> blk_alloc b = true ->
  mem_brk st = heap_end st -> mem_max_addr st < modulus ->
  0 <= size <= SIZE_MAX - 15 -> (length (l1 ++ b :: l2) < fuel)%nat ->
  mm_malloc fuel st size = Some (Ret p st1) ->
  let bpb := heap_start st + total_size l1 in
  (p + size <= bpb \/ bpb + blk_size b <= HDRP p)
  /\ (forall a, bpb <= a < bpb + blk_size b -> mem st1 a = mem st a)
  /\ GET_ALLOC st1 (HDRP p) = 1
  /\ size + 8 <= GET_SIZE st1 (HDRP p).
Proof.
  intros Hok Hb Hbrk Hmax Hsize Hfuel Hmal bpb.
  destruct (adjust_size_room size Hsize) as (_ & Am & A16 & _).
  destruct (mm_malloc_beside fuel st l1 l2 b size Hok Hb Hbrk Hmax Hsize Hfuel)
    as [[st0 E] | (nb & st' & E & Npos & Nend & Napart & Nal & Nsz & Nfr)];
    rewrite E in Hmal; [discriminate Hmal|].
  injection Hmal as <- <-.
  fold bpb in Napart, Nfr.
  assert (Hh : HDRP (nb + 8) = nb).
  { rewrite <- (GET_PLD_PTR_small nb) by lia. apply HDRP_payload; lia. }
  rewrite Hh.
  split; [lia|]. split; [exact Nfr|]. split; [exact Nal | lia].
Qed.

Lemma mm_malloc_spares_live_blocks_witness :
  let st := Stale.s1 in
  let bpb := heap_start st + total_size [] in
  (ptr_of Stale.r2 + 24 <= bpb \/ bpb + 16 <= HDRP (ptr_of Stale.r2))
  /\ (forall a, bpb <= a < bpb + 16 -> mem Stale.s2 a = mem st a)
  /\ GET_ALLOC Stale.s2 (HDRP (ptr_of Stale.r2)) = 1
  /\ 24 + 8 <= GET_SIZE Stale.s2 (HDRP (ptr_of Stale.r2)).
Proof.
  apply (mm_malloc_spares_live_blocks 8 Stale.s1 [] [] (mkBlk 16 true) 24
           (ptr_of Stale.r2) Stale.s2).
  - by_evaluation.
  - reflexivity.
  - vm_compute. reflexivity.
  - vm_compute. reflexivity.
  - vm_compute. split; intro; discriminate.
  - simpl. lia.
  - apply outcome_eta. vm_compute. reflexivity.
Defined.

(** ** Requests whose adjusted size wraps to 0 *)

Lemma adjust_size_wraps_to_zero (size : Z) :
  SIZE_MAX - 15 < size <= SIZE_MAX - 8 -> adjust_size size = 0.
Proof.
  intros H. unfold adjust_size, DSIZE, OVERHEAD.
  change SIZE_MAX with (2 ^ 64 - 1) in H.
  replace (size <=? 8) with false by lia.
  change (8 - 1) with 7.
  rewrite (wrap_small (size + 7)) by (change modulus with (2 ^ 64); lia).
  assert (E : (size + 7) / 8 * 8 = 2 ^ 64 - 8)
    by (Z.div_mod_to_equations; lia).
  rewrite E. reflexivity.
Qed.

(** For [SIZE_MAX - 15 < size <= SIZE_MAX - 8] the adjusted size is 0, every
    free block fits, and [place] first marks the block allocated with size
    0 and then, taking the block itself for the remainder, writes its old
    size back with the flag clear.  So [mm_malloc] returns the payload of
    the first free block and leaves the block list exactly as it was: the
    block it has handed out is still free. *)
Theorem mm_malloc_wrapped_size_keeps_block_free
        (fuel : nat) (st : state) (l1 l2 : list blk) (c : blk) (size : Z) :
  heap_ok st (l1 ++ c :: l2) ->
  Forall (fun b => blk_alloc b = true) l1 -> blk_alloc c = false ->
  SIZE_MAX - 15 < size <= SIZE_MAX - 8 ->
  (length (l1 ++ c :: l2) < fuel)%nat ->
  let bp := heap_start st + total_size l1 in
  exists st',
    mm_malloc fuel st size = Some (Ret (bp + 8) st')
    /\ heap_ok st' (l1 ++ c :: l2)
    /\ GET_ALLOC st' bp = 0
    /\ heap_end st' = heap_end st.
Proof.
  intros Hok Hl1 Hc Hsize Hfuel bp.
  pose proof (adjust_size_wraps_to_zero size Hsize) as Ez.
  destruct (heap_ok_block st l1 l2 c Hok)
    as (Cpos & Cle & C16 & Csz & Cal & _).
  fold bp in Cpos, Cle, Csz, Cal.
  pose proof Hok as (Hs & He & Ht).
  assert (Hno : Forall (fun b => fits 0 b = false) l1).
  { eapply Forall_impl; [|exact Hl1].
    intros b Hb. unfold fits. rewrite Hb. reflexivity. }
  assert (Hfit : fits 0 c = true).
  { unfold fits. rewrite Hc. simpl. lia. }
  exists (place st bp 0).
  assert (Hrun : mm_malloc fuel st size = Some (Ret (bp + 8) (place st bp 0))).
  { unfold mm_malloc. rewrite Ez.
    rewrite (find_fit_at st l1 l2 c 0 fuel Hok Hfuel Hno Hfit). fold bp.
    replace (bp =? NULL) with false by (unfold NULL; lia).
    cbn [negb]. rewrite GET_PLD_PTR_small by lia. reflexivity. }
  pose proof (GET_SIZE_range st bp) as [Hr H8]. rewrite Csz in Hr, H8.
  assert (Hm : mem (place st bp 0)
               = store (store (mem st) bp (PACK 0 1)) bp
                       (PACK (blk_size c) (alloc_bit false))).
  { unfold place. rewrite Csz, Z.sub_0_r, wrap_small by exact Hr.
    replace (16 <=? blk_size c) with true by lia.
    cbn [mem PUT set_mem].
    assert (En : NEXT_BLKP (PUT st bp (PACK 0 1)) bp = bp).
    { unfold NEXT_BLKP, GET_SIZE, GET. cbn [mem PUT set_mem].
      rewrite load_store_same by (vm_compute; split; [discriminate | reflexivity]).
      change (SIZE_OF (PACK 0 1)) with 0.
      rewrite Z.add_0_r. apply wrap_small. lia. }
    rewrite En. reflexivity. }
  destruct (header_stored (store (mem st) bp (PACK 0 1)) bp (blk_size c)
              false Hr H8) as [E1 E2].
  destruct (place_bounds st bp 0) as (Bs & Be & _).
  split; [exact Hrun|].
  split; [|split; [unfold GET_ALLOC, GET; rewrite Hm; exact E2 | exact Be]].
  unfold heap_ok. rewrite Bs, Be, Hm.
  split; [exact Hs|]. split; [exact He|].
  apply tiles_app in Ht. destruct Ht as [Ht1 Ht2]. fold bp in Ht1, Ht2.
  simpl in Ht2. destruct Ht2 as (_ & _ & _ & _ & Ht2).
  apply (tiles_store_block (store (mem st) bp (PACK 0 1)) (heap_end st)
           (heap_start st) bp); try assumption; try reflexivity.
  - apply (tiles_agree (mem st)); [|exact Ht1].
    intros q Hq Hq'. apply load_store_other. lia.
  - rewrite E2, Hc. reflexivity.
  - apply (tiles_agree (mem st)); [|exact Ht2].
    intros q Hq Hq'. apply load_store_other. lia.
Qed.

Lemma mm_malloc_wrapped_size_keeps_block_free_witness :
  exists st',
    mm_malloc 8 Session.s5 (SIZE_MAX - 8)
    = Some (Ret (heap_start Session.s5 + total_size [] + 8) st')
    /\ heap_ok st' ([] ++ mkBlk 16 false :: [mkBlk 32 true; mkBlk 16 false])
    /\ GET_ALLOC st' (heap_start Session.s5 + total_size []) = 0
    /\ heap_end st' = heap_end Session.s5.
Proof.
  apply (mm_malloc_wrapped_size_keeps_block_free 8 Session.s5 []
           [mkBlk 32 true; mkBlk 16 false] (mkBlk 16 false) (SIZE_MAX - 8)).
  - by_evaluation.
  - constructor.
  - reflexivity.
  - vm_compute. split; [reflexivity | intro; discriminate].
  - simpl. lia.
Defined.
